(** * issuer-lib: the issuer (trust-anchor) reconciler and the request
      reconciler's retry policy, embedded in Rocq.

    The embedding follows [controllers/issuer_controller.go].  A
    reconciliation pass talks to four collaborators: the API server
    (object store), the event source shared with the request reconcilers,
    the user supplied [Check] / [IgnoreIssuer] callbacks and the event
    recorder.  The pass is written in a small state monad over a [World]
    that holds the store, the mailbox of reported errors and a
    chronological log of every call made to a collaborator. *)

From Stdlib Require Import ZArith.
From stdpp Require Import base strings list gmap sorting.

Local Open Scope Z_scope.
Local Open Scope string_scope.
Local Open Scope list_scope.

(** ** Errors *)

(** Reasons carried by a [*apierrors.StatusError]; only [NotFound] is
    inspected by the controller. *)
Inductive StatusReason :=
| StatusReasonNotFound
| StatusReasonConflict
| StatusReasonInternalError
| StatusReasonTimeout.

(** Modelled from the spec: controllers/signer/errors.go is not part of the
    sources.  Section 4.2 names the wrapped kinds (Permanent, Pending,
    Issuer) and the tests build them as [signer.PermanentError{Err: e}],
    [signer.PendingError{Err: e}] and [signer.IssuerError{Err: e}]; each
    unwraps to its [Err] and prints as its [Err] (the tests expect
    "Issuer has failed permanently: [error message]" for a wrapped
    "[error message]").  The other constructors are the Go [error] values
    the callbacks and the API client produce. *)
Inductive error :=
| errorString (s : string)                 (* errors.New, fmt.Errorf without %w *)
| wrapError (prefix : string) (err : error) (* fmt.Errorf(prefix + "%w", err) *)
| statusError (reason : StatusReason) (msg : string)
| PermanentError (Err : error)
| PendingError (Err : error)
| IssuerError (Err : error).

(** [err.Error()] *)
Fixpoint Error (e : error) : string :=
  match e with
  | errorString s => s
  | wrapError prefix err => prefix +:+ Error err
  | statusError _ msg => msg
  | PermanentError Err => Error Err
  | PendingError Err => Error Err
  | IssuerError Err => Error Err
  end.

(** [errors.Unwrap(err)] *)
Definition Unwrap (e : error) : option error :=
  match e with
  | errorString _ | statusError _ _ => None
  | wrapError _ err => Some err
  | PermanentError Err | PendingError Err | IssuerError Err => Some Err
  end.

(** [errors.As(err, &signer.PermanentError{})]: walk the [Unwrap] chain and
    stop at the first error whose dynamic type is [PermanentError]. *)
Fixpoint errors_As_PermanentError (e : error) : bool :=
  match e with
  | PermanentError _ => true
  | errorString _ | statusError _ _ => false
  | wrapError _ err => errors_As_PermanentError err
  | PendingError Err | IssuerError Err => errors_As_PermanentError Err
  end.

(** [errors.As(err, &signer.PendingError{})] *)
Fixpoint errors_As_PendingError (e : error) : bool :=
  match e with
  | PendingError _ => true
  | errorString _ | statusError _ _ => false
  | wrapError _ err => errors_As_PendingError err
  | PermanentError Err | IssuerError Err => errors_As_PendingError Err
  end.

(** [errors.As(err, &issuerError)] returning the matched value. *)
Fixpoint errors_As_IssuerError (e : error) : option error :=
  match e with
  | IssuerError Err => Some Err
  | errorString _ | statusError _ _ => None
  | wrapError _ err => errors_As_IssuerError err
  | PermanentError Err | PendingError Err => errors_As_IssuerError Err
  end.

(** [apierrors.IsNotFound(err)]: the status reason found along the chain. *)
Fixpoint IsNotFound (e : error) : bool :=
  match e with
  | statusError StatusReasonNotFound _ => true
  | statusError _ _ | errorString _ => false
  | wrapError _ err => IsNotFound err
  | PermanentError Err | PendingError Err | IssuerError Err => IsNotFound Err
  end.

(** [client.IgnoreNotFound(err)] *)
Definition IgnoreNotFound (e : error) : option error :=
  if IsNotFound e then None else Some e.

(** The chain [errors.As] walks: [e] itself, then [Unwrap e], and so on. *)
Inductive InChain : error -> error -> Prop :=
| InChain_here e : InChain e e
| InChain_next e e' t : Unwrap e = Some e' -> InChain e' t -> InChain e t.

(** What [Reconcile] hands back to controller-runtime: the error as it is,
    the error marked by [reconcile.TerminalError], or an aggregate. *)
#[local] Set Warnings "-register-all".
Inductive ReconcileError :=
| plainError (err : error)
| TerminalError (err : error)
| Aggregate (errs : list ReconcileError).

(** [utilerrors.NewAggregate]: nil entries are dropped, and an empty list
    gives nil. *)
Definition NewAggregate (errlist : list (option ReconcileError)) : option ReconcileError :=
  match omap id errlist with
  | [] => None
  | errs => Some (Aggregate errs)
  end.

(** [errors.Is(err, reconcile.TerminalError(nil))], as controller-runtime
    asks before it requeues. *)
Fixpoint isTerminal (e : ReconcileError) : bool :=
  match e with
  | plainError _ => false
  | TerminalError _ => true
  | Aggregate errs => existsb isTerminal errs
  end.

(** ** Conditions and issuer objects *)

Definition Time := Z.

Inductive ConditionStatus := ConditionTrue | ConditionFalse | ConditionUnknown.

Definition ConditionStatus_eqb (a b : ConditionStatus) : bool :=
  match a, b with
  | ConditionTrue, ConditionTrue
  | ConditionFalse, ConditionFalse
  | ConditionUnknown, ConditionUnknown => true
  | _, _ => false
  end.

Definition IssuerConditionReady : string := "Ready".

Definition IssuerConditionReasonInitializing : string := "Initializing".
Definition IssuerConditionReasonChecked : string := "Checked".
Definition IssuerConditionReasonPending : string := "Pending".
Definition IssuerConditionReasonFailed : string := "Failed".

Record IssuerCondition := mkIssuerCondition {
  Type_ : string;
  Status : ConditionStatus;
  LastTransitionTime : option Time;
  Reason : string;
  Message : string;
  ObservedGeneration : Z;
}.

Record IssuerStatus := mkIssuerStatus {
  Conditions : list IssuerCondition;
}.

Record NamespacedName := mkNamespacedName {
  Namespace : string;
  Name : string;
}.

Record Issuer := mkIssuer {
  ObjectKey : NamespacedName;
  Generation : Z;
  GetStatus : IssuerStatus;
}.

Definition GetGeneration (i : Issuer) : Z := Generation i.

#[global] Instance NamespacedName_eq_dec : EqDecision NamespacedName.
Proof. solve_decision. Defined.

#[global] Instance NamespacedName_countable : Countable NamespacedName.
Proof.
  refine (inj_countable' (fun k => (Namespace k, Name k))
                         (fun p => mkNamespacedName p.1 p.2) _).
  by intros [].
Defined.

Module conditions.

(** Modelled from the spec: package [conditions] is not part of the
    sources.  The lookup returns the first condition of the given type,
    or nil. *)
Fixpoint GetIssuerStatusCondition
    (conds : list IssuerCondition) (conditionType : string) : option IssuerCondition :=
  match conds with
  | [] => None
  | cond :: rest =>
      if String.eqb (Type_ cond) conditionType then Some cond
      else GetIssuerStatusCondition rest conditionType
  end.

(** Modelled from the spec: part of the absent package [conditions];
    the condition of the same type is replaced in place, or the new one
    is appended ("a sparse structure naming only the conditions array",
    section 3). *)
Fixpoint upsert (newCondition : IssuerCondition) (conds : list IssuerCondition)
    : list IssuerCondition :=
  match conds with
  | [] => [newCondition]
  | cond :: rest =>
      if String.eqb (Type_ cond) (Type_ newCondition) then newCondition :: rest
      else cond :: upsert newCondition rest
  end.

(** Modelled from the spec: section 4.1, the Condition Ledger.  The new
    condition carries the given status, reason, message and observed
    generation; [lastTransitionTime] is the clock's time when the status
    changes and is kept from the existing condition when it does not.
    The result is the new condition and the patch's condition list with
    that condition set. *)
Definition SetIssuerStatusCondition
    (now : Time)
    (existingConditions : list IssuerCondition)
    (patchConditions : list IssuerCondition)
    (observedGeneration : Z)
    (conditionType : string) (status : ConditionStatus)
    (reason message : string) : IssuerCondition * list IssuerCondition :=
  let lastTransitionTime :=
    match GetIssuerStatusCondition existingConditions conditionType with
    | Some cond =>
        if ConditionStatus_eqb (Status cond) status
        then LastTransitionTime cond else Some now
    | None => Some now
    end in
  let newCondition :=
    {| Type_ := conditionType; Status := status;
       LastTransitionTime := lastTransitionTime;
       Reason := reason; Message := message;
       ObservedGeneration := observedGeneration |} in
  (newCondition, upsert newCondition patchConditions).

End conditions.

(** ** The world a pass runs in *)

Record Event := mkEvent {
  involvedObject : NamespacedName;
  eventtype : string;
  reason : string;
  message : string;
}.

Definition EventTypeNormal : string := "Normal".
Definition EventTypeWarning : string := "Warning".

Definition eventIssuerChecked : string := "Checked".
Definition eventIssuerRetryableError : string := "RetryableError".
Definition eventIssuerPermanentError : string := "PermanentError".

(** One entry per call a pass makes to a collaborator. *)
Inductive Call :=
| CallHasReportedError (key : NamespacedName)
| CallGet (key : NamespacedName)
| CallIgnoreIssuer (issuer : Issuer)
| CallCheck (issuer : Issuer)
| CallEvent (ev : Event)
| CallStatusPatch (key : NamespacedName) (fieldManager : string) (status : IssuerStatus).

Record World := mkWorld {
  apiserver : gmap NamespacedName Issuer;  (* the store, for the reconciled kind *)
  reported : gmap NamespacedName error;    (* the event source's mailbox, same kind *)
  calls : list Call;                       (* oldest first *)
}.

Definition M (A : Type) : Type := World -> A * World.

Definition ret {A} (a : A) : M A := fun w => (a, w).

Definition bind {A B} (m : M A) (f : A -> M B) : M B :=
  fun w => let '(a, w') := m w in f a w'.

Notation "x <- m ;; k" := (bind m (fun x => k))
  (at level 100, m at next level, right associativity).

Definition record (c : Call) : M unit :=
  fun w => (tt, {| apiserver := apiserver w; reported := reported w;
                   calls := calls w ++ [c] |}).

Module kubeutil.

(** Modelled from the spec: internal/kubeutil is not part of the sources.
    Section 4.4, [consumeAndClear]: read the entry of the key and delete
    it, in one step. *)
Definition consumeAndClear (key : NamespacedName) : M (option error) :=
  fun w => (reported w !! key,
            {| apiserver := apiserver w; reported := delete key (reported w);
               calls := calls w |}).

(** Modelled from the spec: [EventSource.HasReportedError] of the absent
    internal/kubeutil is the [consumeAndClear] of section 4.4; the call is
    logged. *)
Definition HasReportedError (key : NamespacedName) : M (option error) :=
  _ <- record (CallHasReportedError key);; consumeAndClear key.

(** Modelled from the spec: [EventSource.ReportError] of the absent
    internal/kubeutil; section 4.4, [deposit]: last write wins. *)
Definition ReportError (key : NamespacedName) (err : error) (w : World) : World :=
  {| apiserver := apiserver w; reported := <[key := err]> (reported w);
     calls := calls w |}.

End kubeutil.

(** The API client of one pass.  [getFault] and [patchFault] are failures
    of the request itself (transport, server side); [others] is what the
    other writers of the store do between this pass's Get and its status
    patch. *)
Record Client := mkClient {
  getFault : option error;
  patchFault : option error;
  others : gmap NamespacedName Issuer -> gmap NamespacedName Issuer;
}.

Definition serveGet (c : Client) (key : NamespacedName) : M (Issuer + error) :=
  fun w =>
    match getFault c with
    | Some err => (inr err, w)
    | None =>
        match apiserver w !! key with
        | Some issuer => (inl issuer, w)
        | None => (inr (statusError StatusReasonNotFound
                          ("issuer " +:+ Name key +:+ " not found")), w)
        end
    end.

Definition Client_Get (c : Client) (key : NamespacedName) : M (Issuer + error) :=
  _ <- record (CallGet key);; serveGet c key.

(** Server side apply of a status patch naming conditions: each named
    condition replaces the stored one of its type. *)
Definition applyStatus (patch : IssuerStatus) (issuer : Issuer) : Issuer :=
  {| ObjectKey := ObjectKey issuer;
     Generation := Generation issuer;
     GetStatus :=
       {| Conditions :=
            foldl (fun conds c => conditions.upsert c conds)
                  (Conditions (GetStatus issuer)) (Conditions patch) |} |}.

Definition servePatch (c : Client) (key : NamespacedName) (patch : IssuerStatus)
    : M (option error) :=
  fun w =>
    let store := others c (apiserver w) in
    let w' := {| apiserver := store; reported := reported w; calls := calls w |} in
    match patchFault c with
    | Some err => (Some err, w')
    | None =>
        match store !! key with
        | Some issuer =>
            (None, {| apiserver := <[key := applyStatus patch issuer]> store;
                      reported := reported w; calls := calls w |})
        | None => (Some (statusError StatusReasonNotFound
                           ("issuer " +:+ Name key +:+ " not found")), w')
        end
    end.

Definition Client_Status_Patch
    (c : Client) (key : NamespacedName) (fieldManager : string) (patch : IssuerStatus)
    : M (option error) :=
  _ <- record (CallStatusPatch key fieldManager patch);; servePatch c key patch.

Module ssaclient.

(** Modelled from the spec: internal/ssaclient is not part of the
    sources.  Section 4.5, [build(kind, name, namespace, statusDelta)
    (patchTarget, patchBody)]: the target is the named object and the
    body carries the conditions computed in this pass. *)
Definition GenerateIssuerStatusPatch (key : NamespacedName) (status : IssuerStatus)
    : NamespacedName * IssuerStatus * option error :=
  (key, status, None).

End ssaclient.

(** [ctrl.Result] *)
Record Result := mkResult {
  Requeue : bool;
  RequeueAfter : Z;
}.

Definition Result_zero : Result := {| Requeue := false; RequeueAfter := 0 |}.

Record IssuerReconciler := mkIssuerReconciler {
  FieldOwner : string;
  client : Client;
  Check : Issuer -> option error;
  IgnoreIssuer : option (Issuer -> bool * option error);
  Clock : Time;
}.

Definition call_Check (r : IssuerReconciler) (issuer : Issuer) : M (option error) :=
  _ <- record (CallCheck issuer);; ret (Check r issuer).

Definition call_IgnoreIssuer (f : Issuer -> bool * option error) (issuer : Issuer)
    : M (bool * option error) :=
  _ <- record (CallIgnoreIssuer issuer);; ret (f issuer).

Definition EventRecorder_Event
    (issuer : Issuer) (eventtype reason message : string) : M unit :=
  record (CallEvent {| involvedObject := ObjectKey issuer; eventtype := eventtype;
                       reason := reason; message := message |}).

(** ** The issuer reconciler *)

Definition isNil {A} (x : option A) : bool :=
  match x with None => true | Some _ => false end.

(** The [setCondition] closure of [reconcileStatusPatch]: it writes the
    condition into the status patch and returns the condition's message. *)
Definition setCondition
    (r : IssuerReconciler) (issuer : Issuer) (issuerStatusPatch : IssuerStatus)
    (conditionType : string) (status : ConditionStatus) (reason message : string)
    : string * IssuerStatus :=
  let '(condition, patchConditions) :=
    conditions.SetIssuerStatusCondition
      (Clock r)
      (Conditions (GetStatus issuer))
      (Conditions issuerStatusPatch)
      (GetGeneration issuer)
      conditionType status reason message in
  (Message condition, {| Conditions := patchConditions |}).

Definition reconcileStatusPatch (r : IssuerReconciler) (req : NamespacedName)
    : M (Result * option IssuerStatus * option ReconcileError) :=
  let result := Result_zero in
  (* calling HasReportedError early to make sure the map is always cleared *)
  reportedError <- kubeutil.HasReportedError req;;
  got <- Client_Get (client r) req;;
  match got with
  | inr err =>
      if IsNotFound err then ret (result, None, None) (* done *)
      else ret (result, None,
                 Some (plainError (errorString ("unexpected get error: " +:+ Error err))))
  | inl issuer =>
      let readyCondition :=
        conditions.GetIssuerStatusCondition
          (Conditions (GetStatus issuer)) IssuerConditionReady in
      (* Ignore Issuer if it is already permanently Failed *)
      let isFailed :=
        match readyCondition with
        | Some rc =>
            ConditionStatus_eqb (Status rc) ConditionFalse
            && String.eqb (Reason rc) IssuerConditionReasonFailed
            && (GetGeneration issuer <=? ObservedGeneration rc)%Z
        | None => false
        end in
      if isFailed then ret (result, None, None) (* done *)
      else
        (* the Issuer belongs to us: we are responsible for its Status *)
        let owned : M (Result * option IssuerStatus * option ReconcileError) :=
          let issuerStatusPatch := {| Conditions := [] |} in
          match readyCondition with
          | None =>
              let '(_, issuerStatusPatch) :=
                setCondition r issuer issuerStatusPatch
                  IssuerConditionReady ConditionUnknown
                  IssuerConditionReasonInitializing
                  (FieldOwner r +:+ " has started reconciling this Issuer") in
              ret (result, Some issuerStatusPatch, None) (* apply patch, done *)
          | Some rc =>
              err <- (if ConditionStatus_eqb (Status rc) ConditionTrue
                        && negb (isNil reportedError)
                     then ret reportedError
                     else call_Check r issuer);;
              match err with
              | None =>
                  let '(message, issuerStatusPatch) :=
                    setCondition r issuer issuerStatusPatch
                      IssuerConditionReady ConditionTrue
                      IssuerConditionReasonChecked
                      "Succeeded checking the issuer" in
                  _ <- EventRecorder_Event issuer EventTypeNormal eventIssuerChecked message;;
                  ret (result, Some issuerStatusPatch, None) (* apply patch, done *)
              | Some err =>
                  let isPermanentError := errors_As_PermanentError err in
                  if isPermanentError then
                    let '(message, issuerStatusPatch) :=
                      setCondition r issuer issuerStatusPatch
                        IssuerConditionReady ConditionFalse
                        IssuerConditionReasonFailed
                        ("Issuer has failed permanently: " +:+ Error err) in
                    _ <- EventRecorder_Event issuer EventTypeWarning
                          eventIssuerPermanentError message;;
                    ret (result, Some issuerStatusPatch, Some (TerminalError err))
                  else
                    let '(message, issuerStatusPatch) :=
                      setCondition r issuer issuerStatusPatch
                        IssuerConditionReady ConditionFalse
                        IssuerConditionReasonPending
                        ("Issuer is not ready yet: " +:+ Error err) in
                    _ <- EventRecorder_Event issuer EventTypeWarning
                          eventIssuerRetryableError message;;
                    ret (result, Some issuerStatusPatch, Some (plainError err))
              end
          end in
        match IgnoreIssuer r with
        | None => owned
        | Some ignoreIssuer =>
            answer <- call_IgnoreIssuer ignoreIssuer issuer;;
            let '(ignore, err) := answer in
            match err with
            | Some err =>
                ret (result, None,
                      Some (plainError (errorString
                        ("failed to check if issuer should be ignored: " +:+ Error err))))
            | None =>
                if ignore then ret (result, None, None) (* done *)
                else owned
            end
        end
  end.

Definition Reconcile (r : IssuerReconciler) (req : NamespacedName)
    : M (Result * option ReconcileError) :=
  out <- reconcileStatusPatch r req;;
  let '(result, issuerStatusPatch, reconcileError) := out in
  match issuerStatusPatch with
  | None => ret (Result_zero, reconcileError)
  | Some issuerStatusPatch =>
      let '(obj, patch, err) :=
        ssaclient.GenerateIssuerStatusPatch req issuerStatusPatch in
      match err with
      | Some err =>
          ret (Result_zero, NewAggregate [Some (plainError err); reconcileError])
      | None =>
          patchErr <- Client_Status_Patch (client r) obj (FieldOwner r) patch;;
          match patchErr with
          | Some err =>
              match IgnoreNotFound err with
              | Some err =>
                  ret (Result_zero,
                        NewAggregate [Some (plainError err); reconcileError])
              | None => ret (Result_zero, None) (* done *)
              end
          | None => ret (result, reconcileError)
          end
      end
  end.

(** What controller-runtime does with the pair [Reconcile] returns: a
    terminal error is not retried, any other error is requeued through the
    rate limiter (backoff), and without an error the [Result] decides. *)
Inductive Requeueing :=
| Forget
| AddRateLimited
| AddAfter (d : Z)
| NoRetry.

Definition reconcileHandler (out : Result * option ReconcileError) : Requeueing :=
  match out with
  | (_, Some err) => if isTerminal err then NoRetry else AddRateLimited
  | (res, None) =>
      if (0 <? RequeueAfter res)%Z then AddAfter (RequeueAfter res)
      else if Requeue res then AddRateLimited
      else Forget
  end.

(** *** Reading the log *)

Definition isCheck (c : Call) : bool :=
  match c with CallCheck _ => true | _ => false end.

Definition isStatusPatch (c : Call) : bool :=
  match c with CallStatusPatch _ _ _ => true | _ => false end.

Definition isEvent (c : Call) : bool :=
  match c with CallEvent _ => true | _ => false end.

Definition events (cs : list Call) : list Event :=
  omap (fun c => match c with CallEvent ev => Some ev | _ => None end) cs.

Definition checkCalls (cs : list Call) : list Issuer :=
  omap (fun c => match c with CallCheck i => Some i | _ => None end) cs.

Definition statusPatches (cs : list Call) : list (NamespacedName * IssuerStatus) :=
  omap (fun c => match c with CallStatusPatch k _ st => Some (k, st) | _ => None end) cs.

(** A world with an empty log: the calls of a pass started there are the
    calls of that pass. *)
Definition fresh (w : World) : World :=
  {| apiserver := apiserver w; reported := reported w; calls := [] |}.

(** Several passes for one key, one reconciler value per pass (the
    callbacks and the API client may answer differently each time);
    between two passes the request reconcilers may deposit errors. *)
Record Pass := mkPass {
  reconciler : IssuerReconciler;
  deposits : list error;
}.

Fixpoint passes (ps : list Pass) (req : NamespacedName) (w : World)
    : list (Result * option ReconcileError) * World :=
  match ps with
  | [] => ([], w)
  | p :: ps' =>
      let w1 := foldl (fun w e => kubeutil.ReportError req e w) w (deposits p) in
      let '(out, w2) := Reconcile (reconciler p) req w1 in
      let '(outs, w3) := passes ps' req w2 in
      (out :: outs, w3)
  end.

(** The Ready condition of an issuer object. *)
Definition readyOf (issuer : Issuer) : option IssuerCondition :=
  conditions.GetIssuerStatusCondition (Conditions (GetStatus issuer)) IssuerConditionReady.

(** Ready is False with reason Failed, observed at the current generation
    or later. *)
Definition terminallyFailed (issuer : Issuer) : Prop :=
  exists rc, readyOf issuer = Some rc
    /\ Status rc = ConditionFalse
    /\ Reason rc = IssuerConditionReasonFailed
    /\ (Generation issuer <= ObservedGeneration rc)%Z.

(** The pass is not told to leave the object alone. *)
Definition notIgnored (r : IssuerReconciler) (issuer : Issuer) : Prop :=
  match IgnoreIssuer r with
  | None => True
  | Some f => f issuer = (false, None)
  end.

(** *** Objects used in the examples *)

Module Ex.

Definition key : NamespacedName := {| Namespace := "ns"; Name := "issuer-1" |}.

Definition ready (status : ConditionStatus) (reason msg : string) (observed : Z)
    : IssuerCondition :=
  {| Type_ := IssuerConditionReady; Status := status;
     LastTransitionTime := Some 5; Reason := reason; Message := msg;
     ObservedGeneration := observed |}.

Definition issuer (generation : Z) (conds : list IssuerCondition) : Issuer :=
  {| ObjectKey := key; Generation := generation;
     GetStatus := {| Conditions := conds |} |}.

Definition quiet : Client :=
  {| getFault := None; patchFault := None; others := fun store => store |}.

Definition reconciler (check : Issuer -> option error) : IssuerReconciler :=
  {| FieldOwner := "simple-issuer"; client := quiet; Check := check;
     IgnoreIssuer := None; Clock := 100 |}.

Definition world (i : Issuer) (mailbox : gmap NamespacedName error) : World :=
  {| apiserver := {[ key := i ]}; reported := mailbox; calls := [] |}.

Definition boom : error := errorString "[error message]".

Definition failed (generation observed : Z) : Issuer :=
  issuer generation
    [ready ConditionFalse IssuerConditionReasonFailed
           "Issuer has failed permanently: [error message]" observed].

Definition checked (generation : Z) : Issuer :=
  issuer generation
    [ready ConditionTrue IssuerConditionReasonChecked
           "Succeeded checking the issuer" generation].

Definition pending (generation : Z) : Issuer :=
  issuer generation
    [ready ConditionFalse IssuerConditionReasonPending
           "Issuer is not ready yet: [error message]" generation].

End Ex.

(** *** Vocabulary of the statements *)

(** The guard of [reconcileStatusPatch] that skips a permanently failed
    issuer, as a function of the object read from the store. *)
Definition isFailed (issuer : Issuer) : bool :=
  match readyOf issuer with
  | Some rc =>
      ConditionStatus_eqb (Status rc) ConditionFalse
      && String.eqb (Reason rc) IssuerConditionReasonFailed
      && (GetGeneration issuer <=? ObservedGeneration rc)%Z
  | None => false
  end.

(** The pass gets as far as choosing between the deposited error and
    [Check]: the object is read, it has a Ready condition, it is not
    permanently failed and it is not ignored. *)
Record reachesCheck (r : IssuerReconciler) (req : NamespacedName) (w : World)
    (issuer : Issuer) (rc : IssuerCondition) : Prop := {
  reach_get : getFault (client r) = None;
  reach_found : apiserver w !! req = Some issuer;
  reach_ready : readyOf issuer = Some rc;
  reach_alive : isFailed issuer = false;
  reach_owned : notIgnored r issuer;
}.

Definition withCheck (r : IssuerReconciler) (check : Issuer -> option error)
    : IssuerReconciler :=
  {| FieldOwner := FieldOwner r; client := client r; Check := check;
     IgnoreIssuer := IgnoreIssuer r; Clock := Clock r |}.

Definition withoutReport (req : NamespacedName) (w : World) : World :=
  {| apiserver := apiserver w; reported := delete req (reported w); calls := calls w |}.

Definition notCheck (c : Call) : bool := negb (isCheck c).

(** The three ways the check step can end, read off the error it ended
    with: condition status, reason and message, event type and reason, and
    the error handed back. *)
Record Verdict := mkVerdict {
  vStatus : ConditionStatus;
  vReason : string;
  vMessage : string;
  vEventType : string;
  vEventReason : string;
  vError : option ReconcileError;
}.

Definition verdict (err : option error) : Verdict :=
  match err with
  | None =>
      mkVerdict ConditionTrue IssuerConditionReasonChecked
        "Succeeded checking the issuer"
        EventTypeNormal eventIssuerChecked None
  | Some e =>
      if errors_As_PermanentError e then
        mkVerdict ConditionFalse IssuerConditionReasonFailed
          ("Issuer has failed permanently: " +:+ Error e)
          EventTypeWarning eventIssuerPermanentError (Some (TerminalError e))
      else
        mkVerdict ConditionFalse IssuerConditionReasonPending
          ("Issuer is not ready yet: " +:+ Error e)
          EventTypeWarning eventIssuerRetryableError (Some (plainError e))
  end.

(** The Ready condition a pass writes for an issuer it read. *)
Definition readyPatch (r : IssuerReconciler) (issuer : Issuer)
    (status : ConditionStatus) (reason message : string) : IssuerStatus :=
  {| Conditions :=
       [ (conditions.SetIssuerStatusCondition (Clock r)
            (Conditions (GetStatus issuer)) [] (GetGeneration issuer)
            IssuerConditionReady status reason message).1 ] |}.

Definition overrides (rc : IssuerCondition) (reportedError : option error) : bool :=
  ConditionStatus_eqb (Status rc) ConditionTrue && negb (isNil reportedError).

Definition ignoreCall (r : IssuerReconciler) (issuer : Issuer) : list Call :=
  match IgnoreIssuer r with
  | None => []
  | Some _ => [CallIgnoreIssuer issuer]
  end.

(** The world after the status patch has been served. *)
Definition patched (c : Client) (req : NamespacedName) (fieldManager : string)
    (patch : IssuerStatus) (w1 : World) : World :=
  let store := others c (apiserver w1) in
  {| apiserver :=
       match patchFault c, store !! req with
       | None, Some issuer => <[req := applyStatus patch issuer]> store
       | _, _ => store
       end;
     reported := reported w1;
     calls := calls w1 ++ [CallStatusPatch req fieldManager patch] |}.

(** Bumping the generation, as the owner of the object does when it edits
    the spec. *)
Definition withGeneration (g : Z) (issuer : Issuer) : Issuer :=
  {| ObjectKey := ObjectKey issuer; Generation := g; GetStatus := GetStatus issuer |}.

Definition withObject (req : NamespacedName) (issuer : Issuer) (w : World) : World :=
  {| apiserver := <[req := issuer]> (apiserver w); reported := reported w;
     calls := calls w |}.

(** The error the check step ends with: the deposited one when it
    overrides, the answer of [Check] otherwise. *)
Definition chosenError (r : IssuerReconciler) (req : NamespacedName) (w : World)
    (issuer : Issuer) (rc : IssuerCondition) : option error :=
  if overrides rc (reported w !! req) then reported w !! req else Check r issuer.

Definition verdictEvent (issuer : Issuer) (v : Verdict) : Event :=
  {| involvedObject := ObjectKey issuer; eventtype := vEventType v;
     reason := vEventReason v; message := vMessage v |}.

Definition verdictPatch (r : IssuerReconciler) (issuer : Issuer) (v : Verdict)
    : IssuerStatus :=
  readyPatch r issuer (vStatus v) (vReason v) (vMessage v).

(** The world when [reconcileStatusPatch] returns from the check step. *)
Definition checkedWorld (r : IssuerReconciler) (req : NamespacedName) (w : World)
    (issuer : Issuer) (rc : IssuerCondition) : World :=
  {| apiserver := apiserver w;
     reported := delete req (reported w);
     calls := calls w
              ++ [CallHasReportedError req; CallGet req]
              ++ ignoreCall r issuer
              ++ (if overrides rc (reported w !! req) then [] else [CallCheck issuer])
              ++ [CallEvent (verdictEvent issuer (verdict (chosenError r req w issuer rc)))] |}.

(** The condition written for an object that has no Ready condition. *)
Definition initializing (r : IssuerReconciler) (issuer : Issuer) : IssuerCondition :=
  {| Type_ := IssuerConditionReady;
     Status := ConditionUnknown;
     LastTransitionTime := Some (Clock r);
     Reason := IssuerConditionReasonInitializing;
     Message := FieldOwner r +:+ " has started reconciling this Issuer";
     ObservedGeneration := Generation issuer |}.

(** What the store answers to the Get and to the status patch of a pass. *)
Definition getAnswer (c : Client) (req : NamespacedName) (w : World) : Issuer + error :=
  (serveGet c req w).1.

Definition patchAnswer (c : Client) (req : NamespacedName) (w : World) : option error :=
  (servePatch c req {| Conditions := [] |} w).1.

(** The five ways a pass can go, by what it finds. *)
Inductive PassCase (r : IssuerReconciler) (req : NamespacedName) (w : World) : Prop :=
| PassNoObject err :
    getAnswer (client r) req w = inr err -> PassCase r req w
| PassFailed issuer :
    apiserver w !! req = Some issuer -> terminallyFailed issuer -> PassCase r req w
| PassIgnored issuer f :
    getFault (client r) = None -> apiserver w !! req = Some issuer ->
    isFailed issuer = false -> IgnoreIssuer r = Some f ->
    f issuer <> (false, None) -> PassCase r req w
| PassInitializing issuer :
    getFault (client r) = None -> apiserver w !! req = Some issuer ->
    readyOf issuer = None -> notIgnored r issuer -> PassCase r req w
| PassCheck issuer rc :
    reachesCheck r req w issuer rc -> PassCase r req w.

(** ** The request reconciler *)

Module request.

(** Modelled from the spec: the request reconciler
    (controllers/request_controller.go and its retry bookkeeping) is not
    part of the sources; only its tests are.  This module follows
    sections 3, 4.1, 4.2, 4.3 and 4.7 of the specification, and takes
    the condition messages from the expectations of
    TestCombinedControllerTemporaryFailedCertificateRequestRetrigger. *)
Record Request := mkRequest {
  RequestKey : NamespacedName;
  IssuerRef : NamespacedName;          (* the one trust-anchor it refers to *)
  RequestGeneration : Z;
  Payload : string;                    (* opaque to the engine *)
  Ready : option IssuerCondition;      (* same shape as the issuer's *)
  Certificate : option string;         (* the signed result *)
}.

(** Modelled from the spec: the reason vocabulary of a request's Ready
    condition (sections 3 and 6); the absent cert-manager API package
    declares the constants. *)
Definition RequestReasonPending : string := "Pending".
Definition RequestReasonFailed : string := "Failed".
Definition RequestReasonIssued : string := "Issued".
Definition RequestReasonDenied : string := "Denied".

(** Modelled from the spec: section 4.1, the outcomes the Condition
    Ledger is driven by. *)
Inductive Outcome :=
| Success
| Transient (err : error)
| Permanent (err : error)
| Pending (err : error).

(** Modelled from the spec: section 4.2, the kinds of errors a Sign call
    can end with. *)
Inductive ErrorKind := KindPermanent | KindPending | KindIssuer | KindTransient.

(** Modelled from the spec: section 4.2, the classifier of the absent
    request reconciler, by structural matching.  An error that carries an
    [IssuerError] is an issuer error whatever it wraps: the tests expect
    [IssuerError{PermanentError{e}}] to fail the issuer and to leave the
    request Pending.  Any other error is Permanent, else Pending, else
    Transient. *)
Definition classify (err : error) : ErrorKind :=
  if negb (isNil (errors_As_IssuerError err)) then KindIssuer
  else if errors_As_PermanentError err then KindPermanent
  else if errors_As_PendingError err then KindPending
  else KindTransient.

(** Modelled from the spec: section 4.1,
    [computeReadyCondition(existing, generation, outcome, clockNow)
    (next, message)], for a request object.  Errors are embedded as
    they print; the message of an issued request is the one the tests
    expect. *)
Definition computeReadyCondition
    (fieldOwner : string)
    (existing : option IssuerCondition) (generation : Z)
    (outcome : Outcome) (clockNow : Time) : IssuerCondition * string :=
  let make status reason message :=
    ({| Type_ := IssuerConditionReady;
        Status := status;
        LastTransitionTime :=
          match existing with
          | Some cond =>
              if ConditionStatus_eqb (Status cond) status
              then LastTransitionTime cond else Some clockNow
          | None => Some clockNow
          end;
        Reason := reason;
        Message := message;
        ObservedGeneration := generation |}, message) in
  match existing with
  | None =>
      make ConditionUnknown IssuerConditionReasonInitializing
           (fieldOwner +:+ " has started reconciling this CertificateRequest")
  | Some _ =>
      match outcome with
      | Success => make ConditionTrue RequestReasonIssued "issued"
      | Permanent err => make ConditionFalse RequestReasonFailed (Error err)
      | Transient err => make ConditionFalse RequestReasonPending (Error err)
      | Pending err => make ConditionFalse RequestReasonPending (Error err)
      end
  end.

(** Modelled from the spec: section 3, the Retry Record, and section
    4.3, [observe(key, isFailure, now) *Duration]. *)
Definition observe (key : NamespacedName) (isFailure : bool) (now : Time)
    (firstFailureTime : gmap NamespacedName Time)
    : option Z * gmap NamespacedName Time :=
  if isFailure then
    match firstFailureTime !! key with
    | Some t0 => (Some (now - t0), firstFailureTime)
    | None => (Some 0, <[key := now]> firstFailureTime)
    end
  else (None, delete key firstFailureTime).

(** Modelled from the spec: the escalation rule of the absent retry
    tracker, section 4.3: a [Transient] outcome whose
    incident has lasted longer than [MaxRetryDuration] is promoted to
    [Permanent] before it reaches the Condition Ledger. *)
Definition escalate (maxRetryDuration : Z) (elapsed : option Z) (outcome : Outcome)
    : Outcome :=
  match outcome, elapsed with
  | Transient err, Some d => if (maxRetryDuration <? d)%Z then Permanent err else outcome
  | _, _ => outcome
  end.

(** Modelled from the spec: what a pass of the absent request reconciler
    reads and writes: the stored requests and trust-anchors, the Event
    Registry (section 4.4), the Retry Records (section 3), and the log of
    the Sign calls. *)
Record World := mkWorld {
  requests : gmap NamespacedName Request;
  issuers : gmap NamespacedName Issuer;
  mailbox : gmap NamespacedName error;           (* the Event Registry *)
  firstFailureTime : gmap NamespacedName Time;   (* the Retry Records *)
  signCalls : list (Request * Issuer);           (* oldest first *)
}.

(** Modelled from the spec: the configuration of the absent request
    reconciler (section 6): the field manager, [MaxRetryDuration], the
    Sign callback and the clock. *)
Record RequestReconciler := mkRequestReconciler {
  FieldOwner : string;
  MaxRetryDuration : Z;
  Sign : Request -> Issuer -> string + error;
  Clock : Time;
}.

(** Modelled from the spec: the double quote around the trust-anchor's
    reason in the messages the tests expect. *)
Definition dquote : string := String (Ascii.ascii_of_nat 34) EmptyString.

(** Modelled from the spec: section 4.7, the rules the absent request
    reconciler applies before Sign: the referenced trust-anchor must
    exist, its Ready condition must be up to date, and it must be True.
    The messages of the outdated and of the not-ready case are those the
    tests expect; a trust-anchor without a Ready condition is not ready
    either. *)
Definition waitForIssuer (w : World) (req : Request) : Issuer + error :=
  match issuers w !! IssuerRef req with
  | None =>
      inr (errorString "Issuer is not Ready yet. Waiting for it to exist.")
  | Some issuer =>
      match readyOf issuer with
      | None =>
          inr (errorString
                 "Issuer is not Ready yet. No ready condition found. Waiting for it to become ready.")
      | Some readyCondition =>
          if (ObservedGeneration readyCondition <? Generation issuer)%Z then
            inr (errorString
                   "Issuer is not Ready yet. Current ready condition is outdated. Waiting for it to become ready.")
          else if negb (ConditionStatus_eqb (Status readyCondition) ConditionTrue) then
            inr (errorString
                   ("Issuer is not Ready yet. Current ready condition is "
                    +:+ dquote +:+ Reason readyCondition +:+ dquote +:+ ": "
                    +:+ Message readyCondition
                    +:+ ". Waiting for it to become ready."))
          else inl issuer
      end
  end.

(** Modelled from the spec: section 4.1, a Failed condition observed at
    the current generation is terminal: reconciliation of the object
    stops. *)
Definition terminal (req : Request) (existing : IssuerCondition) : bool :=
  ConditionStatus_eqb (Status existing) ConditionFalse
  && String.eqb (Reason existing) RequestReasonFailed
  && (RequestGeneration req <=? ObservedGeneration existing)%Z.

(** Modelled from the spec: sections 4.1 and 4.2, what the absent request
    reconciler hands back for an outcome: done, an error that is retried
    with backoff, or a terminal error. *)
Definition resultOf (outcome : Outcome) : Result * option ReconcileError :=
  match outcome with
  | Success => (Result_zero, None)
  | Permanent err => (Result_zero, Some (TerminalError err))
  | Transient err => (Result_zero, Some (plainError err))
  | Pending err => (Result_zero, Some (plainError err))
  end.

(** Modelled from the spec: the Condition Ledger (section 4.1) applied
    to the request and the status write of the absent request reconciler;
    a request carries the signed result only when the pass stores one
    (section 3). *)
Definition writeCondition (r : RequestReconciler) (req : Request)
    (certificate : option string) (outcome : Outcome)
    (records : gmap NamespacedName Time) (w : World) : World :=
  let '(next, _) :=
    computeReadyCondition (FieldOwner r) (Ready req) (RequestGeneration req)
      outcome (Clock r) in
  let req' :=
    {| RequestKey := RequestKey req; IssuerRef := IssuerRef req;
       RequestGeneration := RequestGeneration req; Payload := Payload req;
       Ready := Some next; Certificate := certificate |} in
  {| requests := <[RequestKey req := req']> (requests w);
     issuers := issuers w;
     mailbox := mailbox w;
     firstFailureTime := records;
     signCalls := signCalls w |}.

(** Modelled from the spec: section 4.3 as the absent request reconciler
    applies it: success clears the retry record, a transient failure is
    observed and escalated when it is late, and permanent and pending
    outcomes leave the record as it is ("Pending outcomes never advance or
    trigger this clock"); then the Condition Ledger. *)
Definition conclude (r : RequestReconciler) (req : Request)
    (certificate : option string) (outcome : Outcome) (w : World)
    : (Result * option ReconcileError) * World :=
  let '(elapsed, records) :=
    match outcome with
    | Success => observe (RequestKey req) false (Clock r) (firstFailureTime w)
    | Transient _ => observe (RequestKey req) true (Clock r) (firstFailureTime w)
    | Permanent _ | Pending _ => (None, firstFailureTime w)
    end in
  let outcome := escalate (MaxRetryDuration r) elapsed outcome in
  (resultOf outcome, writeCondition r req certificate outcome records w).

(** Modelled from the spec: sections 4.2 and 4.7, the outcome of a
    failed Sign in the absent request reconciler.  After an issuer error
    the request waits for the trust-anchor to be checked again, with the
    message the tests expect. *)
Definition outcomeOf (err : error) : Outcome :=
  match classify err with
  | KindPermanent => Permanent err
  | KindPending => Pending err
  | KindTransient => Transient err
  | KindIssuer =>
      Pending (errorString
        "Issuer is not Ready yet. Current ready condition is outdated. Waiting for it to become ready.")
  end.

(** Modelled from the spec: section 4.4, [deposit(kind, key, err)], last
    write wins, on the world of the request reconciler. *)
Definition deposit (key : NamespacedName) (err : error) (w : World) : World :=
  {| requests := requests w; issuers := issuers w;
     mailbox := <[key := err]> (mailbox w);
     firstFailureTime := firstFailureTime w; signCalls := signCalls w |}.

(** Modelled from the spec: the call of the Sign callback (section 6),
    logged. *)
Definition callSign (req : Request) (issuer : Issuer) (w : World) : World :=
  {| requests := requests w; issuers := issuers w; mailbox := mailbox w;
     firstFailureTime := firstFailureTime w;
     signCalls := signCalls w ++ [(req, issuer)] |}.

(** Modelled from the spec: section 4.7, one pass of the absent request
    reconciler over the request with the given key: nothing for a missing
    or terminally failed request, Initializing for a request without a
    Ready condition, Pending while the trust-anchor is not ready, else
    Sign; an issuer error is deposited under the key of the
    trust-anchor. *)
Definition Reconcile (r : RequestReconciler) (key : NamespacedName) (w : World)
    : (Result * option ReconcileError) * World :=
  match requests w !! key with
  | None => ((Result_zero, None), w)
  | Some req =>
      match Ready req with
      | None =>
          (* Unknown/Initializing, section 4.1: done for this pass *)
          ((Result_zero, None),
           writeCondition r req (Certificate req) Success (firstFailureTime w) w)
      | Some existing =>
          if terminal req existing then ((Result_zero, None), w)
          else
            match waitForIssuer w req with
            | inr waiting => conclude r req (Certificate req) (Pending waiting) w
            | inl issuer =>
                let w := callSign req issuer w in
                match Sign r req issuer with
                | inl signed => conclude r req (Some signed) Success w
                | inr err =>
                    let w :=
                      match classify err, errors_As_IssuerError err with
                      | KindIssuer, Some inner => deposit (IssuerRef req) inner w
                      | _, _ => w
                      end in
                    conclude r req (Certificate req) (outcomeOf err) w
                end
            end
      end
  end.

(** Several passes over one request, one reconciler value per pass. *)
Fixpoint passes (rs : list RequestReconciler) (key : NamespacedName) (w : World)
    : list (Result * option ReconcileError) * World :=
  match rs with
  | [] => ([], w)
  | r :: rs' =>
      let '(out, w1) := Reconcile r key w in
      let '(outs, w2) := passes rs' key w1 in
      (out :: outs, w2)
  end.

(** The pass gets as far as calling Sign: the request is stored, has a
    Ready condition that is not terminal, and its trust-anchor is there,
    up to date and Ready. *)
Record reachesSign (w : World) (key : NamespacedName)
    (req : Request) (existing : IssuerCondition) (issuer : Issuer) : Prop := {
  sign_found : requests w !! key = Some req;
  sign_key : RequestKey req = key;
  sign_ready : Ready req = Some existing;
  sign_alive : terminal req existing = false;
  sign_issuer : waitForIssuer w req = inl issuer;
}.

Definition withSign (r : RequestReconciler) (sign : Request -> Issuer -> string + error)
    : RequestReconciler :=
  {| FieldOwner := FieldOwner r; MaxRetryDuration := MaxRetryDuration r;
     Sign := sign; Clock := Clock r |}.

End request.

(** *** Requests used in the examples *)

Module RequestEx.

Definition key : NamespacedName :=
  {| Namespace := "ns"; Name := "certificate-request-1" |}.

(** A request whose last Sign failed, transiently. *)
Definition retrying : request.Request :=
  {| request.RequestKey := key; request.IssuerRef := Ex.key;
     request.RequestGeneration := 1; request.Payload := "doo";
     request.Ready :=
       Some {| Type_ := IssuerConditionReady; Status := ConditionFalse;
               LastTransitionTime := Some 10;
               Reason := request.RequestReasonPending;
               Message := "[error message]"; ObservedGeneration := 1 |};
     request.Certificate := None |}.

(** The incident began at time 0; the trust-anchor is Ready. *)
Definition world : request.World :=
  {| request.requests := {[ key := retrying ]};
     request.issuers := {[ Ex.key := Ex.checked 3 ]};
     request.mailbox := ∅;
     request.firstFailureTime := {[ key := 0 ]};
     request.signCalls := [] |}.

(** 300 ms of retry budget, read at time 1000. *)
Definition reconciler (sign : request.Request -> Issuer -> string + error)
    : request.RequestReconciler :=
  {| request.FieldOwner := "simple-issuer"; request.MaxRetryDuration := 300;
     request.Sign := sign; request.Clock := 1000 |}.

End RequestEx.

(** ** Setting the controller up *)

(** The calls [SetupWithManager] makes, in the order it makes them. *)
Inductive SetupCall :=
| CallSetGroupVersionKind
| CallAddConsumer
| CallBuild
| CallPostSetupWithManager.

(** What the manager answers: [kubeutil.SetGroupVersionKind] on its scheme,
    and [build.Build]. *)
Record Manager := mkManager {
  setGroupVersionKind : option error;
  build : option error;
}.

(** [IssuerReconciler.SetupWithManager]; the first component is the
    [PostSetupWithManager] field of the reconciler after the call. *)
Definition SetupWithManager
    (PostSetupWithManager : option (Manager -> option error)) (mgr : Manager)
    : option (Manager -> option error) * option error * list SetupCall :=
  match setGroupVersionKind mgr with
  | Some err => (PostSetupWithManager, Some err, [CallSetGroupVersionKind])
  | None =>
      match build mgr with
      | Some err =>
          (PostSetupWithManager, Some err,
           [CallSetGroupVersionKind; CallAddConsumer; CallBuild])
      | None =>
          match PostSetupWithManager with
          | Some postSetup =>
              let err := postSetup mgr in
              (None, (* free setup function *)
               err,
               [CallSetGroupVersionKind; CallAddConsumer; CallBuild;
                CallPostSetupWithManager])
          | None =>
              (None, None, [CallSetGroupVersionKind; CallAddConsumer; CallBuild])
          end
      end
  end.

(** The same reconciler set up against several managers, one after the
    other: the log of all calls and the field at the end. *)
Fixpoint setups (PostSetupWithManager : option (Manager -> option error))
    (mgrs : list Manager) : option (Manager -> option error) * list SetupCall :=
  match mgrs with
  | [] => (PostSetupWithManager, [])
  | mgr :: rest =>
      let '(field, _, log) := SetupWithManager PostSetupWithManager mgr in
      let '(field', log') := setups field rest in
      (field', log ++ log')
  end.

Definition isPostSetup (c : SetupCall) : bool :=
  match c with CallPostSetupWithManager => true | _ => false end.

(** ** The conformance helper: key usages *)

Module helper.

(** [x509.KeyUsage] is a bit mask and [x509.ExtKeyUsage] an enumeration,
    both Go [int]s; the constants are those of crypto/x509. *)
Definition KeyUsageKeyAgreement : Z := Z.shiftl 1 4.
Definition ExtKeyUsageServerAuth : Z := 1.
Definition ExtKeyUsageClientAuth : Z := 2.

(** [deduplicateExtKeyUsages]: the usages are put into a map as keys and
    read back from it; Go leaves the order of the result open, the map's
    listing fixes one. *)
Definition deduplicateExtKeyUsages (us : list Z) : list Z :=
  let extKeyUsagesMap : gmap Z bool :=
    foldl (fun m e => <[e := true]> m) ∅ us in
  omap (fun kv => if (kv.2 : bool) then Some kv.1 else None)
       (map_to_list extKeyUsagesMap).

(** [sort.SliceStable(s, func(i, j) bool { return s[i] < s[j] })] on a
    slice of integers. *)
Definition SliceStable (s : list Z) : list Z := merge_sort Z.le s.

(** The last loop of [keyUsagesMatch], over two slices of one length. *)
Fixpoint sameAtEveryIndex (aEKU bEKU : list Z) : bool :=
  match aEKU, bEKU with
  | a :: aEKU', b :: bEKU' =>
      if negb (a =? b)%Z then false else sameAtEveryIndex aEKU' bEKU'
  | _, _ => true
  end.

(** [keyUsagesMatch]; the slices are sorted in place, so the result
    carries the two slices as the caller finds them afterwards. *)
Definition keyUsagesMatch (aKU : Z) (aEKU : list Z) (bKU : Z) (bEKU : list Z)
    : bool * list Z * list Z :=
  if negb (aKU =? bKU)%Z then (false, aEKU, bEKU)
  else if negb (length aEKU =? length bEKU)%nat then (false, aEKU, bEKU)
  else
    let aEKU := SliceStable aEKU in
    let bEKU := SliceStable bEKU in
    (sameAtEveryIndex aEKU bEKU, aEKU, bEKU).

(** The parts of [v1.IssuerSpec] that [defaultKeyUsagesToAdd] looks at:
    which issuer configurations are set. *)
Record IssuerSpec := mkIssuerSpec {
  ACME : bool;
  Vault : bool;
  Venafi : bool;
}.

(** [cmmeta.ObjectReference] *)
Record ObjectReference := mkObjectReference {
  RefName : string;
  RefKind : string;
  RefGroup : string;
}.

(** The two Get calls of the cert-manager client: cluster issuers by name,
    issuers by namespace and name. *)
Record CMClient := mkCMClient {
  ClusterIssuers_Get : string -> IssuerSpec + error;
  Issuers_Get : string -> string -> IssuerSpec + error;
}.

(** [defaultKeyUsagesToAdd]; [formatRef] is how fmt prints the reference
    with %v. *)
Definition defaultKeyUsagesToAdd
    (formatRef : ObjectReference -> string) (h : CMClient)
    (ns : string) (issuerRef : ObjectReference)
    : Z * list Z * option error :=
  let found :=
    if String.eqb (RefKind issuerRef) "ClusterIssuer" then
      match ClusterIssuers_Get h (RefName issuerRef) with
      | inr err =>
          inr (errorString ("failed to find referenced ClusterIssuer "
                            +:+ formatRef issuerRef +:+ ": " +:+ Error err))
      | inl spec => inl spec
      end
    else
      match Issuers_Get h ns (RefName issuerRef) with
      | inr err =>
          inr (errorString ("failed to find referenced Issuer "
                            +:+ formatRef issuerRef +:+ ": " +:+ Error err))
      | inl spec => inl spec
      end in
  match found with
  | inr err => (0, [], Some err)
  | inl issuerSpec =>
      let keyUsages := 0 in
      let extKeyUsages := [] in
      (* Vault and ACME issuers add server auth and client auth *)
      let extKeyUsages :=
        if ACME issuerSpec || Vault issuerSpec
        then extKeyUsages ++ [ExtKeyUsageServerAuth; ExtKeyUsageClientAuth]
        else extKeyUsages in
      (* Vault issuers add key agreement *)
      let keyUsages :=
        if Vault issuerSpec then Z.lor keyUsages KeyUsageKeyAgreement
        else keyUsages in
      (* Venafi issuers add server auth *)
      let extKeyUsages :=
        if Venafi issuerSpec then extKeyUsages ++ [ExtKeyUsageServerAuth]
        else extKeyUsages in
      (keyUsages, extKeyUsages, None)
  end.

(** ** The conformance helper: waiting *)

(** [context.DeadlineExceeded], what the poll returns at the deadline. *)
Definition DeadlineExceeded : error := errorString "context deadline exceeded".

(** [wait.PollUntilContextTimeout(ctx, interval, timeout, true, condition)]
    over the polls that take place before the deadline: [ticks] holds what
    each poll finds, [s] is the state the condition closes over.  The loop
    ends at the first poll whose condition reports an error or done. *)
Fixpoint PollUntilContextTimeout {T S : Type}
    (condition : T -> S -> S * (bool * option error))
    (ticks : list T) (s : S) : S * option error :=
  match ticks with
  | [] => (s, Some DeadlineExceeded)
  | tick :: rest =>
      let '(s', (done, err)) := condition tick s in
      match err with
      | Some err => (s', Some err)
      | None => if done then (s', None) else PollUntilContextTimeout condition rest s'
      end
  end.

(** What [client.Get] returns at one poll: the object and the error. *)
Definition Got (A : Type) : Type := option A * option error.

(** [WaitForCertificateToExist]: the captured [certificate] takes whatever
    Get returned; NotFound is "not yet", any other error ends the wait. *)
Definition WaitForCertificateToExist {A} (name : string) (ticks : list (Got A))
    : option A * option error :=
  PollUntilContextTimeout
    (fun (got : Got A) (_ : option A) =>
       let '(certificate, err) := got in
       match err with
       | Some err =>
           if IsNotFound err then (certificate, (false, None))
           else (certificate,
                 (false, Some (errorString ("error getting Certificate " +:+ name
                                            +:+ ": " +:+ Error err))))
       | None => (certificate, (true, None))
       end)
    ticks None.

(** The loop shared, line by line, by [waitForCertificateCondition],
    [waitForIssuerCondition] and [waitForClusterIssuerCondition]: on any
    Get error the captured object is set to nil and the wait ends;
    [kind] is the word used in the message. *)
Definition waitForCondition {A} (kind name : string) (check : option A -> bool)
    (ticks : list (Got A)) : option A * option error :=
  PollUntilContextTimeout
    (fun (got : Got A) (_ : option A) =>
       let '(object, err) := got in
       match err with
       | Some err =>
           (None,
            (false, Some (errorString ("error getting " +:+ kind +:+ " " +:+ name
                                       +:+ ": " +:+ Error err))))
       | None => (object, (check object, None))
       end)
    ticks None.

Definition waitForCertificateCondition {A} := @waitForCondition A "Certificate".

(** [waitForIssuerCondition] and [waitForClusterIssuerCondition]; the
    last component tells whether "Failed waiting for issuer" is logged. *)
Definition waitForIssuerCondition {A} (name : string) (check : option A -> bool)
    (ticks : list (Got A)) : option A * option error * bool :=
  let '(issuer, pollErr) := waitForCondition "Issuer" name check ticks in
  (issuer, pollErr, negb (isNil pollErr) && negb (isNil issuer)).

End helper.

(** *** More objects for the examples *)

Module Ex2.

(** A reconciler whose [IgnoreIssuer] gives the same answer for every
    issuer. *)
Definition ignoring (answer : bool * option error) : IssuerReconciler :=
  {| FieldOwner := "simple-issuer"; client := Ex.quiet; Check := fun _ => None;
     IgnoreIssuer := Some (fun _ => answer); Clock := 100 |}.

(** A reconciler whose status patches are refused by the store. *)
Definition refused (check : Issuer -> option error) (patchError : error)
    : IssuerReconciler :=
  {| FieldOwner := "simple-issuer";
     client := {| getFault := None; patchFault := Some patchError;
                  others := fun store => store |};
     Check := check; IgnoreIssuer := None; Clock := 100 |}.

Definition conflict : error := statusError StatusReasonConflict "conflict".

End Ex2.

Module HelperEx.

(** A client that knows one cluster issuer, "vault-venafi", with a Vault
    and a Venafi configuration, and no namespaced issuer. *)
Definition client : helper.CMClient :=
  {| helper.ClusterIssuers_Get := fun name =>
       if String.eqb name "vault-venafi"
       then inl {| helper.ACME := false; helper.Vault := true; helper.Venafi := true |}
       else inr (statusError StatusReasonNotFound "not found");
     helper.Issuers_Get := fun _ _ =>
       inr (statusError StatusReasonNotFound "not found") |}.

Definition formatRef (ref : helper.ObjectReference) : string :=
  "&{" +:+ helper.RefName ref +:+ " " +:+ helper.RefKind ref +:+ " "
  +:+ helper.RefGroup ref +:+ "}".

Definition clusterRef : helper.ObjectReference :=
  {| helper.RefName := "vault-venafi"; helper.RefKind := "ClusterIssuer";
     helper.RefGroup := "cert-manager.io" |}.

(** The same name with a kind that is not "ClusterIssuer". *)
Definition misspeltRef : helper.ObjectReference :=
  {| helper.RefName := "vault-venafi"; helper.RefKind := "clusterissuer";
     helper.RefGroup := "cert-manager.io" |}.

Definition notFound : error := statusError StatusReasonNotFound "not found".
Definition timeout : error := statusError StatusReasonTimeout "timeout".

End HelperEx.

(** * Properties of the issuer reconciler *)

Ltac unfold_pass :=
  unfold Reconcile, reconcileStatusPatch, kubeutil.HasReportedError,
    kubeutil.consumeAndClear, Client_Get, serveGet, Client_Status_Patch,
    servePatch, call_Check, call_IgnoreIssuer, EventRecorder_Event, record,
    bind, ret; cbn [fst snd apiserver reported calls].

Lemma app_two {A} (l : list A) (a b : A) : (l ++ [a]) ++ [b] = l ++ [a; b].
Proof. by rewrite <- app_assoc. Qed.

Lemma terminallyFailed_isFailed issuer rc :
  readyOf issuer = Some rc ->
  Status rc = ConditionFalse ->
  Reason rc = IssuerConditionReasonFailed ->
  (Generation issuer <= ObservedGeneration rc)%Z ->
  ConditionStatus_eqb (Status rc) ConditionFalse
  && String.eqb (Reason rc) IssuerConditionReasonFailed
  && (GetGeneration issuer <=? ObservedGeneration rc)%Z = true.
Proof.
  intros _ -> -> Hle. unfold GetGeneration. cbn.
  by apply Z.leb_le.
Qed.

(** One pass over a terminally failed object: the mailbox entry is
    dropped, the object is read, and nothing else happens. *)
Lemma Reconcile_terminallyFailed r req w issuer :
  apiserver w !! req = Some issuer ->
  terminallyFailed issuer ->
  Reconcile r req w =
    (match getFault (client r) with
     | None => (Result_zero, None)
     | Some err =>
         if IsNotFound err then (Result_zero, None)
         else (Result_zero,
               Some (plainError (errorString ("unexpected get error: " +:+ Error err))))
     end,
     {| apiserver := apiserver w;
        reported := delete req (reported w);
        calls := calls w ++ [CallHasReportedError req; CallGet req] |}).
Proof.
  intros Hget (rc & Hrc & Hs & Hr & Hg).
  unfold_pass. rewrite app_two.
  destruct (getFault (client r)) as [err|].
  - by destruct (IsNotFound err).
  - rewrite Hget. fold (readyOf issuer). rewrite Hrc.
    by rewrite (terminallyFailed_isFailed issuer rc).
Qed.

Lemma deposits_keep_store req (es : list error) w :
  apiserver (foldl (fun w e => kubeutil.ReportError req e w) w es) = apiserver w
  /\ calls (foldl (fun w e => kubeutil.ReportError req e w) w es) = calls w.
Proof.
  revert w. induction es as [|e es IH]; intros w; [done|].
  cbn [foldl]. destruct (IH (kubeutil.ReportError req e w)) as [-> ->]. done.
Qed.

Lemma checkCalls_app cs ds : checkCalls (cs ++ ds) = checkCalls cs ++ checkCalls ds.
Proof. apply omap_app. Qed.

Lemma statusPatches_app cs ds :
  statusPatches (cs ++ ds) = statusPatches cs ++ statusPatches ds.
Proof. apply omap_app. Qed.

Lemma events_app cs ds : events (cs ++ ds) = events cs ++ events ds.
Proof. apply omap_app. Qed.

(** Any number of passes over a terminally failed object, whatever the
    callbacks, the API faults and the deposits in between: the stored
    object, the Check calls, the status patches and the events stay as
    they were, and every pass whose Get is served returns done. *)
Lemma passes_terminallyFailed (ps : list Pass) req w issuer :
  apiserver w !! req = Some issuer ->
  terminallyFailed issuer ->
  apiserver (passes ps req w).2 = apiserver w
  /\ checkCalls (calls (passes ps req w).2) = checkCalls (calls w)
  /\ statusPatches (calls (passes ps req w).2) = statusPatches (calls w)
  /\ events (calls (passes ps req w).2) = events (calls w)
  /\ Forall2 (fun p out =>
               getFault (client (reconciler p)) = None ->
               out = (Result_zero, None) /\ reconcileHandler out = Forget)
             ps (passes ps req w).1.
Proof.
  intros Hget Hfailed. revert w Hget.
  induction ps as [|p ps IH]; intros w Hget.
  { cbn. repeat split; constructor. }
  cbn [passes].
  set (w1 := foldl _ w (deposits p)).
  destruct (deposits_keep_store req (deposits p) w) as [Hstore Hcalls].
  fold w1 in Hstore, Hcalls.
  assert (Hget1 : apiserver w1 !! req = Some issuer) by (by rewrite Hstore).
  rewrite (Reconcile_terminallyFailed (reconciler p) req w1 issuer Hget1 Hfailed).
  set (w2 := {| apiserver := apiserver w1 |}).
  specialize (IH w2 Hget1).
  destruct (passes ps req w2) as [outs w3]. cbn [fst snd] in *.
  destruct IH as (-> & -> & -> & -> & Houts).
  subst w2. cbn [apiserver calls].
  rewrite checkCalls_app, statusPatches_app, events_app, Hstore, Hcalls. cbn.
  rewrite !app_nil_r. repeat split.
  constructor; [|done].
  intros ->. done.
Qed.

(** [reconcileStatusPatch] on a pass that reaches the check step. *)
Lemma reconcileStatusPatch_check r req w issuer rc :
  reachesCheck r req w issuer rc ->
  reconcileStatusPatch r req w =
    ((Result_zero,
      Some (verdictPatch r issuer (verdict (chosenError r req w issuer rc))),
      vError (verdict (chosenError r req w issuer rc))),
     checkedWorld r req w issuer rc).
Proof.
  intros [Hg Hf Hr Ha Ho].
  unfold checkedWorld, verdictPatch, verdictEvent, chosenError.
  unfold_pass. rewrite Hg, Hf.
  unfold isFailed in Ha. fold (readyOf issuer). rewrite Hr in *. rewrite Ha.
  unfold notIgnored, ignoreCall, readyPatch, setCondition,
    conditions.SetIssuerStatusCondition in *.
  fold (readyOf issuer). rewrite Hr. fold (overrides rc (reported w !! req)).
  destruct (IgnoreIssuer r) as [f|]; [rewrite Ho|];
    (destruct (overrides rc (reported w !! req));
     [destruct (reported w !! req) as [e|]
     |destruct (Check r issuer) as [e|]];
     cbn [verdict]; try destruct (errors_As_PermanentError e);
     cbn; rewrite <- ?app_assoc; reflexivity).
Qed.

(** [Reconcile] after [reconcileStatusPatch] gave no patch: nothing is
    written and the error is handed on. *)
Lemma Reconcile_nil_patch r req w res rerr w1 :
  reconcileStatusPatch r req w = ((res, None, rerr), w1) ->
  Reconcile r req w = ((Result_zero, rerr), w1).
Proof. intros H. unfold Reconcile, bind. by rewrite H. Qed.

(** [Reconcile] after [reconcileStatusPatch] gave a patch: the patch is
    sent, and the answer of the store decides what is returned. *)
Lemma Reconcile_some_patch r req w res patch rerr w1 :
  reconcileStatusPatch r req w = ((res, Some patch, rerr), w1) ->
  Reconcile r req w =
    (match patchFault (client r) with
     | Some err =>
         if IsNotFound err then (Result_zero, None)
         else (Result_zero, NewAggregate [Some (plainError err); rerr])
     | None =>
         match others (client r) (apiserver w1) !! req with
         | Some _ => (res, rerr)
         | None => (Result_zero, None)
         end
     end,
     patched (client r) req (FieldOwner r) patch w1).
Proof.
  intros H. unfold Reconcile, bind. rewrite H.
  unfold ssaclient.GenerateIssuerStatusPatch, Client_Status_Patch, servePatch,
    record, bind, ret, patched, IgnoreNotFound.
  cbn [apiserver reported calls].
  destruct (patchFault (client r)) as [err|].
  - by destruct (IsNotFound err).
  - by destruct (others (client r) (apiserver w1) !! req).
Qed.

Lemma errors_As_PermanentError_chain e :
  errors_As_PermanentError e = true <-> exists inner, InChain e (PermanentError inner).
Proof.
  split.
  - induction e as [s|p e IH|rs m|e IH|e IH|e IH]; cbn; intros H; try done.
    + destruct (IH H) as [inner Hin]. exists inner. by eapply InChain_next.
    + exists e. constructor.
    + destruct (IH H) as [inner Hin]. exists inner. by eapply InChain_next.
    + destruct (IH H) as [inner Hin]. exists inner. by eapply InChain_next.
  - intros [inner Hin]. remember (PermanentError inner) as t eqn:Ht.
    induction Hin as [e|e e' t Hun Hin IH]; subst; [done|].
    destruct e; cbn in Hun; try done; injection Hun as ->; cbn; auto.
Qed.

(** A whole pass that reaches the check step. *)
Lemma Reconcile_check r req w issuer rc :
  reachesCheck r req w issuer rc ->
  Reconcile r req w =
    (match patchFault (client r) with
     | Some err =>
         if IsNotFound err then (Result_zero, None)
         else (Result_zero,
               NewAggregate [Some (plainError err);
                             vError (verdict (chosenError r req w issuer rc))])
     | None =>
         match others (client r) (apiserver w) !! req with
         | Some _ => (Result_zero, vError (verdict (chosenError r req w issuer rc)))
         | None => (Result_zero, None)
         end
     end,
     patched (client r) req (FieldOwner r)
       (verdictPatch r issuer (verdict (chosenError r req w issuer rc)))
       (checkedWorld r req w issuer rc)).
Proof.
  intros H.
  by rewrite (Reconcile_some_patch _ _ _ _ _ _ _ (reconcileStatusPatch_check _ _ _ _ _ H)).
Qed.

Lemma checkCalls_checkedWorld r req w issuer rc patch :
  checkCalls (calls (patched (client r) req (FieldOwner r) patch
                       (checkedWorld r req (fresh w) issuer rc)))
  = if overrides rc (reported w !! req) then [] else [issuer].
Proof.
  unfold patched, checkedWorld, fresh, ignoreCall. cbn [calls reported].
  rewrite !checkCalls_app.
  by destruct (IgnoreIssuer r), (overrides rc (reported w !! req)).
Qed.

Lemma readyOf_withGeneration g issuer : readyOf (withGeneration g issuer) = readyOf issuer.
Proof. done. Qed.

(** C1. An issuer whose Ready condition is False with reason Failed and
    an observed generation at or past the object's generation is left
    alone: over any number of passes, whatever the callbacks, the API
    faults and the errors deposited in between, no Check call is made, no
    status patch is sent, no event is emitted and the stored object stays
    as it is, and every pass whose Get is served returns the empty result
    with no error, which is not requeued.  Once the owner has moved the
    generation past the observed one, a pass that is not ignored calls
    Check again. *)
Theorem C1_failed_issuer_is_frozen (ps : list Pass) req w issuer :
  apiserver w !! req = Some issuer ->
  terminallyFailed issuer ->
  (apiserver (passes ps req w).2 = apiserver w
   /\ checkCalls (calls (passes ps req w).2) = checkCalls (calls w)
   /\ statusPatches (calls (passes ps req w).2) = statusPatches (calls w)
   /\ events (calls (passes ps req w).2) = events (calls w)
   /\ Forall2 (fun p out =>
                getFault (client (reconciler p)) = None ->
                out = (Result_zero, None) /\ reconcileHandler out = Forget)
              ps (passes ps req w).1)
  /\ (forall r rc g,
        readyOf issuer = Some rc ->
        (ObservedGeneration rc < g)%Z ->
        getFault (client r) = None ->
        notIgnored r (withGeneration g issuer) ->
        checkCalls (calls (Reconcile r req
                             (fresh (withObject req (withGeneration g issuer) w))).2)
        = [withGeneration g issuer]).
Proof.
  intros Hget Hfailed. split; [by apply (passes_terminallyFailed ps req w issuer)|].
  intros r rc g Hrc Hlt Hfault Hown.
  destruct Hfailed as (rc' & Hrc' & Hs & Hr & Hg).
  assert (rc' = rc) as -> by congruence.
  set (issuer' := withGeneration g issuer).
  set (w' := withObject req issuer' w).
  assert (Hreach : reachesCheck r req (fresh w') issuer' rc).
  { split; try done.
    - cbn. apply lookup_insert_eq.
    - unfold isFailed, issuer'. rewrite readyOf_withGeneration, Hrc, Hs, Hr. cbn.
      by apply Z.leb_gt. }
  rewrite (Reconcile_check _ _ _ _ _ Hreach). cbn [snd].
  rewrite (checkCalls_checkedWorld r req w' issuer' rc).
  unfold overrides. by rewrite Hs.
Qed.

(** C1 at work: two passes over an issuer failed at generation 3, with a
    [Check] that would succeed and an error deposited before the second
    pass. *)
Lemma C1_failed_issuer_is_frozen_witness :
  terminallyFailed (Ex.failed 3 3)
  /\ checkCalls (calls (passes
       [mkPass (Ex.reconciler (fun _ => None)) [];
        mkPass (Ex.reconciler (fun _ => None)) [Ex.boom]]
       Ex.key (Ex.world (Ex.failed 3 3) ∅)).2) = []
  /\ (passes
       [mkPass (Ex.reconciler (fun _ => None)) [];
        mkPass (Ex.reconciler (fun _ => None)) [Ex.boom]]
       Ex.key (Ex.world (Ex.failed 3 3) ∅)).1
     = [(Result_zero, None); (Result_zero, None)].
Proof.
  assert (Hfailed : terminallyFailed (Ex.failed 3 3)).
  { eexists. repeat split; [reflexivity..|]. cbn. lia. }
  assert (Hget : apiserver (Ex.world (Ex.failed 3 3) ∅) !! Ex.key = Some (Ex.failed 3 3)).
  { apply lookup_singleton_eq. }
  split; [exact Hfailed|].
  pose proof (C1_failed_issuer_is_frozen
    [mkPass (Ex.reconciler (fun _ => None)) [];
     mkPass (Ex.reconciler (fun _ => None)) [Ex.boom]]
    Ex.key _ _ Hget Hfailed) as [(_ & Hchecks & _ & _ & Houts) _].
  split; [exact Hchecks|].
  inversion Houts as [|p1 o1 l1 l1' H1 Hrest1 E1 E2]; subst.
  inversion Hrest1 as [|p2 o2 l2 l2' H2 Hrest2 E3 E4]; subst.
  inversion Hrest2; subst.
  destruct (H1 eq_refl) as [-> _]. destruct (H2 eq_refl) as [-> _].
  reflexivity.
Defined.

(** Every pass starts by taking the deposited error out of the mailbox
    and then reads the object; the store is not touched before the status
    patch. *)
Lemma reconcileStatusPatch_frame r req w :
  apiserver (reconcileStatusPatch r req w).2 = apiserver w
  /\ reported (reconcileStatusPatch r req w).2 = delete req (reported w)
  /\ exists rest,
       calls (reconcileStatusPatch r req w).2
       = calls w ++ CallHasReportedError req :: CallGet req :: rest.
Proof.
  unfold_pass. unfold setCondition, conditions.SetIssuerStatusCondition.
  destruct (getFault (client r)) as [err|].
  { destruct (IsNotFound err); cbn; rewrite <- ?app_assoc; cbn; eauto. }
  destruct (apiserver w !! req) as [issuer|]; cbn;
    [|rewrite <- ?app_assoc; cbn; eauto].
  fold (readyOf issuer).
  destruct (readyOf issuer) as [rc|]; cbn.
  - destruct (_ && _ && _); cbn; [rewrite <- ?app_assoc; cbn; eauto|].
    destruct (IgnoreIssuer r) as [f|]; cbn;
      [destruct (f issuer) as [[|] [e|]]; cbn;
       try (rewrite <- ?app_assoc; cbn; by eauto)|];
      (destruct (_ && negb _); cbn;
       [destruct (reported w !! req) as [e|]
       |destruct (Check r issuer) as [e|]]; cbn;
       try destruct (errors_As_PermanentError e); cbn;
       rewrite <- ?app_assoc; cbn; eauto).
  - destruct (IgnoreIssuer r) as [f|]; cbn;
      [destruct (f issuer) as [[|] [e|]]; cbn|];
      rewrite <- ?app_assoc; cbn; eauto.
Qed.

Lemma Reconcile_frame r req w :
  reported (Reconcile r req w).2 = delete req (reported w)
  /\ exists rest,
       calls (Reconcile r req w).2
       = calls w ++ CallHasReportedError req :: CallGet req :: rest.
Proof.
  destruct (reconcileStatusPatch_frame r req w) as (_ & Hrep & rest & Hcalls).
  destruct (reconcileStatusPatch r req w) as [[[res [patch|]] rerr] w1] eqn:E;
    cbn [snd] in *.
  - rewrite (Reconcile_some_patch _ _ _ _ _ _ _ E). cbn. split; [done|].
    rewrite Hcalls. exists (rest ++ [CallStatusPatch req (FieldOwner r) patch]).
    by rewrite <- app_assoc.
  - rewrite (Reconcile_nil_patch _ _ _ _ _ _ E). cbn. eauto.
Qed.

Lemma GetIssuerStatusCondition_upsert c conds :
  conditions.GetIssuerStatusCondition (conditions.upsert c conds) (Type_ c) = Some c.
Proof.
  induction conds as [|d conds IH]; cbn.
  - by rewrite String.eqb_refl.
  - destruct (String.eqb (Type_ d) (Type_ c)) eqn:E; cbn.
    + by rewrite String.eqb_refl.
    + by rewrite E.
Qed.

(** A stored object takes the Ready condition of a patch that names it. *)
Lemma readyOf_applyStatus c issuer :
  Type_ c = IssuerConditionReady ->
  readyOf (applyStatus {| Conditions := [c] |} issuer) = Some c.
Proof.
  intros Hty. unfold readyOf, applyStatus. cbn.
  rewrite <- Hty. apply GetIssuerStatusCondition_upsert.
Qed.

(** [reconcileStatusPatch] on an object without a Ready condition. *)
Lemma reconcileStatusPatch_initializing r req w issuer :
  getFault (client r) = None ->
  apiserver w !! req = Some issuer ->
  readyOf issuer = None ->
  notIgnored r issuer ->
  reconcileStatusPatch r req w =
    ((Result_zero, Some {| Conditions := [initializing r issuer] |}, None),
     {| apiserver := apiserver w;
        reported := delete req (reported w);
        calls := calls w ++ [CallHasReportedError req; CallGet req]
                 ++ ignoreCall r issuer |}).
Proof.
  intros Hg Hf Hr Ho.
  unfold_pass. rewrite Hg, Hf.
  unfold notIgnored, ignoreCall, setCondition, initializing,
    conditions.SetIssuerStatusCondition in *.
  fold (readyOf issuer). rewrite Hr.
  destruct (IgnoreIssuer r) as [f|]; [rewrite Ho|];
    cbn; rewrite <- ?app_assoc; reflexivity.
Qed.

Lemma apiserver_patched c req fm patch w1 stored :
  patchFault c = None ->
  others c (apiserver w1) !! req = Some stored ->
  apiserver (patched c req fm patch w1)
  = <[req := applyStatus patch stored]> (others c (apiserver w1)).
Proof. intros Hpf Hst. unfold patched. cbn. by rewrite Hpf, Hst. Qed.

(** The log of the pass that writes the first condition. *)
Lemma initializing_pass_log r req w issuer :
  getFault (client r) = None ->
  apiserver w !! req = Some issuer ->
  readyOf issuer = None ->
  notIgnored r issuer ->
  checkCalls (calls (Reconcile r req (fresh w)).2) = []
  /\ events (calls (Reconcile r req (fresh w)).2) = []
  /\ statusPatches (calls (Reconcile r req (fresh w)).2)
     = [(req, {| Conditions := [initializing r issuer] |})].
Proof.
  intros Hg Hf Hr Ho.
  pose proof (reconcileStatusPatch_initializing r req (fresh w) issuer Hg Hf Hr Ho) as Hrsp.
  rewrite (Reconcile_some_patch _ _ _ _ _ _ _ Hrsp).
  cbn [fst snd patched calls fresh].
  rewrite !checkCalls_app, !events_app, !statusPatches_app.
  unfold ignoreCall. by destruct (IgnoreIssuer r).
Qed.

(** A pass whose Get fails. *)
Lemma Reconcile_get_error r req w err :
  getAnswer (client r) req w = inr err ->
  Reconcile r req w =
    ((Result_zero,
      if IsNotFound err then None
      else Some (plainError (errorString ("unexpected get error: " +:+ Error err)))),
     {| apiserver := apiserver w;
        reported := delete req (reported w);
        calls := calls w ++ [CallHasReportedError req; CallGet req] |}).
Proof.
  unfold getAnswer, serveGet. intros H.
  unfold_pass. rewrite app_two.
  destruct (getFault (client r)) as [err'|].
  - injection H as ->. by destruct (IsNotFound err).
  - destruct (apiserver w !! req) as [issuer|]; [done|].
    injection H as <-. done.
Qed.

(** No pass calls Check on an object that has no Ready condition,
    whatever the callbacks and the API client answer. *)
Lemma no_condition_no_check r req w issuer :
  apiserver w !! req = Some issuer ->
  readyOf issuer = None ->
  checkCalls (calls (Reconcile r req (fresh w)).2) = [].
Proof.
  intros Hf Hr.
  destruct (getFault (client r)) as [err|] eqn:Hg.
  { rewrite (Reconcile_get_error r req (fresh w) err);
      [done|unfold getAnswer, serveGet; by rewrite Hg]. }
  destruct (IgnoreIssuer r) as [f|] eqn:Hi.
  - destruct (f issuer) as [ignore [e|]] eqn:Hfi; [|destruct ignore].
    + unfold fresh. unfold_pass. rewrite Hg, Hf. fold (readyOf issuer).
      by rewrite Hr, Hi, Hfi.
    + unfold fresh. unfold_pass. rewrite Hg, Hf. fold (readyOf issuer).
      by rewrite Hr, Hi, Hfi.
    + apply (initializing_pass_log r req w issuer); try done.
      unfold notIgnored. by rewrite Hi, Hfi.
  - apply (initializing_pass_log r req w issuer); try done.
    unfold notIgnored. by rewrite Hi.
Qed.

Lemma isFailed_terminallyFailed issuer :
  isFailed issuer = true -> terminallyFailed issuer.
Proof.
  unfold isFailed, terminallyFailed.
  destruct (readyOf issuer) as [rc|]; [|done].
  intros H. apply andb_prop in H as [H Hgen]. apply andb_prop in H as [Hs Hr].
  exists rc. split; [done|]. repeat split.
  - by destruct (Status rc).
  - by apply String.eqb_eq.
  - by apply Z.leb_le.
Qed.

(** A pass that is told to leave the object alone, or whose
    [IgnoreIssuer] fails. *)
Lemma Reconcile_ignored r req w issuer f :
  getFault (client r) = None ->
  apiserver w !! req = Some issuer ->
  isFailed issuer = false ->
  IgnoreIssuer r = Some f ->
  f issuer <> (false, None) ->
  Reconcile r req w =
    ((Result_zero,
      match (f issuer).2 with
      | Some err =>
          Some (plainError (errorString
                  ("failed to check if issuer should be ignored: " +:+ Error err)))
      | None => None
      end),
     {| apiserver := apiserver w;
        reported := delete req (reported w);
        calls := calls w ++ [CallHasReportedError req; CallGet req;
                             CallIgnoreIssuer issuer] |}).
Proof.
  intros Hg Hf Ha Hi Hfi. unfold_pass. rewrite Hg, Hf.
  unfold isFailed in Ha. fold (readyOf issuer).
  destruct (readyOf issuer) as [rc|]; rewrite ?Ha, Hi; cbn;
    (destruct (f issuer) as [[|] [e|]]; [| | |done]);
    cbn; by rewrite <- !app_assoc.
Qed.

Lemma pass_cases r req w : PassCase r req w.
Proof.
  destruct (getAnswer (client r) req w) as [issuer|err] eqn:Hans;
    [|by eapply PassNoObject].
  assert (getFault (client r) = None
          /\ apiserver w !! req = Some issuer) as [Hg Hf].
  { unfold getAnswer, serveGet in Hans.
    destruct (getFault (client r)); [done|].
    destruct (apiserver w !! req); [|done]. by injection Hans as ->. }
  destruct (isFailed issuer) eqn:Ha.
  { eapply PassFailed; [done|]. by apply isFailed_terminallyFailed. }
  assert (Hig : notIgnored r issuer
                \/ exists f, IgnoreIssuer r = Some f /\ f issuer <> (false, None)).
  { unfold notIgnored. destruct (IgnoreIssuer r) as [f|]; [|by left].
    destruct (f issuer) as [[|] [e|]] eqn:Hfi;
      [right; exists f; by rewrite Hfi..|by left]. }
  destruct Hig as [Ho|(f & Hi & Hfi)]; [|by eapply PassIgnored].
  destruct (readyOf issuer) as [rc|] eqn:Hr.
  - by eapply (PassCheck _ _ _ issuer rc).
  - by eapply PassInitializing.
Qed.

Lemma reachesCheck_replaced r req w issuer rc e :
  reachesCheck r req w issuer rc ->
  reachesCheck (withCheck r (fun _ => Some e)) req (withoutReport req w) issuer rc.
Proof. intros [Hg Hf Hr Ha Ho]. by split. Qed.

Lemma delete_twice (req : NamespacedName) (m : gmap NamespacedName error) :
  delete req (delete req m) = delete req m.
Proof. apply delete_id, lookup_delete_eq. Qed.

(** Passes compose like any state computation. *)
Lemma bind_assoc {A B C} (m : M A) (f : A -> M B) (g : B -> M C) w :
  bind (bind m f) g w = bind m (fun x => bind (f x) g) w.
Proof. unfold bind. by destruct (m w). Qed.

(** After the first two calls of a pass the event source is not called
    again. *)
Lemma Reconcile_consumes_once r req w :
  exists rest,
    calls (Reconcile r req w).2
    = calls w ++ CallHasReportedError req :: CallGet req :: rest
    /\ forall key, CallHasReportedError key ∉ rest.
Proof.
  destruct (pass_cases r req w)
    as [err Hans|issuer Hf Hfail|issuer f Hg Hf Ha Hi Hfi
       |issuer Hg Hf Hr Ho|issuer rc Hreach].
  - rewrite (Reconcile_get_error _ _ _ _ Hans). exists []. cbn.
    split; [done|]. intros key. apply not_elem_of_nil.
  - rewrite (Reconcile_terminallyFailed _ _ _ _ Hf Hfail). exists []. cbn.
    split; [done|]. intros key. apply not_elem_of_nil.
  - rewrite (Reconcile_ignored _ _ _ _ _ Hg Hf Ha Hi Hfi).
    exists [CallIgnoreIssuer issuer]. cbn. split; [done|].
    intros key Hin. apply list_elem_of_In in Hin. cbn in Hin. intuition discriminate.
  - rewrite (Reconcile_some_patch _ _ _ _ _ _ _
               (reconcileStatusPatch_initializing _ _ _ _ Hg Hf Hr Ho)).
    eexists (ignoreCall r issuer ++ [CallStatusPatch req (FieldOwner r) _]).
    cbn [snd patched calls]. rewrite <- !app_assoc. cbn [app].
    split; [reflexivity|].
    intros key Hin. apply list_elem_of_In in Hin.
    unfold ignoreCall in Hin. destruct (IgnoreIssuer r); cbn in Hin; intuition discriminate.
  - rewrite (Reconcile_check _ _ _ _ _ Hreach).
    eexists (ignoreCall r issuer
             ++ (if overrides rc (reported w !! req) then [] else [CallCheck issuer])
             ++ [CallEvent _; CallStatusPatch req (FieldOwner r) _]).
    cbn [snd patched checkedWorld calls]. rewrite <- !app_assoc. cbn [app].
    split; [reflexivity|].
    intros key Hin. apply list_elem_of_In in Hin.
    unfold ignoreCall in Hin.
    destruct (IgnoreIssuer r), (overrides rc (reported w !! req));
      cbn in Hin; intuition discriminate.
Qed.

(** A pass that does not get as far as the check step makes no [Check]
    call. *)
Lemma no_check_before_check_step r req w :
  (forall issuer rc, ~ reachesCheck r req w issuer rc) ->
  checkCalls (calls (Reconcile r req (fresh w)).2) = [].
Proof.
  intros Hnot.
  destruct (pass_cases r req (fresh w))
    as [err Hans|issuer Hf Hfail|issuer f Hg Hf Ha Hi Hfi
       |issuer Hg Hf Hr Ho|issuer rc Hreach].
  - by rewrite (Reconcile_get_error _ _ _ _ Hans).
  - rewrite (Reconcile_terminallyFailed _ _ _ _ Hf Hfail). done.
  - by rewrite (Reconcile_ignored _ _ _ _ _ Hg Hf Ha Hi Hfi).
  - by apply (initializing_pass_log r req w issuer).
  - destruct (Hnot issuer rc). destruct Hreach. by split.
Qed.

(** What is left of a pass after its first call neither reads nor writes
    the mailbox: an error deposited for the key once the entry has been
    taken out stays where it is, and the pass goes on as it would have
    without it. *)
Lemma rest_of_pass_keeps_deposit r req :
  exists rest : option error -> M (Result * option ReconcileError),
    (forall w, Reconcile r req w
               = (reportedError <- kubeutil.HasReportedError req;;
                  rest reportedError) w)
    /\ (forall reportedError e w1,
          rest reportedError (kubeutil.ReportError req e w1)
          = ((rest reportedError w1).1,
             kubeutil.ReportError req e (rest reportedError w1).2)).
Proof.
  eexists. split.
  - intros w. unfold Reconcile, reconcileStatusPatch. cbv zeta.
    rewrite bind_assoc. reflexivity.
  - intros reportedError e w1. cbv beta.
    unfold kubeutil.ReportError, ssaclient.GenerateIssuerStatusPatch,
      setCondition, conditions.SetIssuerStatusCondition, IgnoreNotFound,
      Client_Get, serveGet, Client_Status_Patch, servePatch, call_Check,
      call_IgnoreIssuer, EventRecorder_Event, record, bind, ret.
    cbn [fst snd apiserver reported calls].
    destruct (getFault (client r)) as [err|].
    { by destruct (IsNotFound err). }
    destruct (apiserver w1 !! req) as [issuer|]; [|done].
    fold (readyOf issuer).
    destruct (readyOf issuer) as [rc|];
      [destruct (_ && _ && _); [done|]|];
      (destruct (IgnoreIssuer r) as [f|];
       [destruct (f issuer) as [[|] [e0|]]; try done|]);
      try (destruct (_ && negb _);
           [destruct reportedError as [e1|]|destruct (Check r issuer) as [e1|]];
           try destruct (errors_As_PermanentError e1));
      cbn [fst snd apiserver reported calls];
      (destruct (patchFault (client r)) as [perr|];
       [by destruct (IsNotFound perr)
       |by destruct (others (client r) (apiserver w1) !! req)]).
Qed.

(** C2, as stated, fails: an issuer whose Ready condition is False/Failed
    at the current generation, nothing deposited, nothing ignored, the
    object served by the store.  The condition is not True and no error is
    deposited, yet the pass does not run Check. *)
Lemma C2_check_skipped_counterexample :
  readyOf (Ex.failed 3 3)
    = Some (Ex.ready ConditionFalse IssuerConditionReasonFailed
              "Issuer has failed permanently: [error message]" 3)
  /\ reported (Ex.world (Ex.failed 3 3) ∅) !! Ex.key = None
  /\ apiserver (Ex.world (Ex.failed 3 3) ∅) !! Ex.key = Some (Ex.failed 3 3)
  /\ calls (Reconcile (Ex.reconciler (fun _ => None)) Ex.key
              (Ex.world (Ex.failed 3 3) ∅)).2
     = [CallHasReportedError Ex.key; CallGet Ex.key]
  /\ checkCalls (calls (Reconcile (Ex.reconciler (fun _ => None)) Ex.key
                          (Ex.world (Ex.failed 3 3) ∅)).2) = [].
Proof. vm_compute. done. Qed.

(** C2, amended.  On every pass the entry of the object's key is taken
    out of the mailbox atomically and before any other step.  Before any
    other step: the call to the event source is the first call of the
    pass, the Get is the second, and the event source is not called
    again.  Atomically: the pass is one step of the event source, which
    reads the entry and deletes it at once, followed by a rest that
    neither reads nor writes the mailbox.  So the pass takes the entry of
    the key and nothing else out of the mailbox; an error deposited
    before the step is the one handed to the pass; an error deposited
    after the step does not change what the pass does and is still in the
    mailbox when the pass ends, for the next pass to take.  On a pass
    that reaches the check step (object read, Ready condition present,
    not permanently failed, not ignored): when the Ready condition is
    True and an error was deposited, Check is not called and the pass
    ends as it would have if Check had returned that error; in every
    other case Check is called once, on the object read, and a deposited
    error has no effect.  A pass that stops before the check step does
    not call Check. *)
Theorem C2_deposited_error_consumed_first r req w :
  (exists rest,
     calls (Reconcile r req w).2
     = calls w ++ CallHasReportedError req :: CallGet req :: rest
     /\ forall key, CallHasReportedError key ∉ rest)
  /\ reported (Reconcile r req w).2 = delete req (reported w)
  /\ reported (Reconcile r req w).2 !! req = None
  /\ (exists rest : option error -> M (Result * option ReconcileError),
        (forall w0, Reconcile r req w0
                    = (reportedError <- kubeutil.HasReportedError req;;
                       rest reportedError) w0)
        /\ (forall w0,
              (kubeutil.HasReportedError req w0).1 = reported w0 !! req
              /\ reported (kubeutil.HasReportedError req w0).2
                 = delete req (reported w0))
        /\ (forall e' w0,
              (kubeutil.HasReportedError req (kubeutil.ReportError req e' w0)).1
              = Some e')
        /\ (forall reportedError e' w1,
              rest reportedError (kubeutil.ReportError req e' w1)
              = ((rest reportedError w1).1,
                 kubeutil.ReportError req e' (rest reportedError w1).2))
        /\ (forall e' w0,
              (reportedError <- kubeutil.HasReportedError req;;
               fun w1 => rest reportedError (kubeutil.ReportError req e' w1)) w0
              = ((Reconcile r req w0).1,
                 kubeutil.ReportError req e' (Reconcile r req w0).2)
              /\ reported (kubeutil.ReportError req e' (Reconcile r req w0).2) !! req
                 = Some e'))
  /\ (forall issuer rc,
        reachesCheck r req w issuer rc ->
        match reported w !! req with
        | Some e =>
            if ConditionStatus_eqb (Status rc) ConditionTrue then
              checkCalls (calls (Reconcile r req (fresh w)).2) = []
              /\ (Reconcile r req w).1
                 = (Reconcile (withCheck r (fun _ => Some e)) req (withoutReport req w)).1
              /\ apiserver (Reconcile r req w).2
                 = apiserver (Reconcile (withCheck r (fun _ => Some e)) req
                                (withoutReport req w)).2
              /\ filter notCheck (calls (Reconcile r req w).2)
                 = filter notCheck
                     (calls (Reconcile (withCheck r (fun _ => Some e)) req
                               (withoutReport req w)).2)
            else
              checkCalls (calls (Reconcile r req (fresh w)).2) = [issuer]
              /\ Reconcile r req w = Reconcile r req (withoutReport req w)
        | None => checkCalls (calls (Reconcile r req (fresh w)).2) = [issuer]
        end)
  /\ ((forall issuer rc, ~ reachesCheck r req w issuer rc) ->
      checkCalls (calls (Reconcile r req (fresh w)).2) = []).
Proof.
  destruct (Reconcile_frame r req w) as [Hrep _].
  split; [apply Reconcile_consumes_once|].
  split; [exact Hrep|].
  split; [rewrite Hrep; apply lookup_delete_eq|].
  split.
  { destruct (rest_of_pass_keeps_deposit r req) as (rest & Hpass & Hkeep).
    exists rest. split; [exact Hpass|]. split; [done|].
    split; [intros e' w0; cbn; apply lookup_insert_eq|].
    split; [exact Hkeep|].
    intros e' w0. split; [|cbn; apply lookup_insert_eq].
    rewrite Hpass. unfold bind.
    destruct (kubeutil.HasReportedError req w0) as [x w1].
    apply Hkeep. }
  split; [|apply no_check_before_check_step].
  intros issuer rc Hreach.
  assert (Hfresh : reachesCheck r req (fresh w) issuer rc)
    by (destruct Hreach; by split).
  rewrite (Reconcile_check _ _ _ _ _ Hfresh). cbn [snd].
  rewrite checkCalls_checkedWorld.
  destruct (reported w !! req) as [e|] eqn:Hdep.
  - destruct (ConditionStatus_eqb (Status rc) ConditionTrue) eqn:Hs.
    + pose proof (reachesCheck_replaced _ _ _ _ _ e Hreach) as Hreach'.
      set (r' := withCheck r (fun _ => Some e)) in *.
      set (w' := withoutReport req w) in *.
      assert (Ho1 : overrides rc (reported w !! req) = true)
        by (unfold overrides; by rewrite Hdep, Hs).
      assert (Ho2 : overrides rc (reported w' !! req) = false).
      { unfold overrides, w', withoutReport. cbn [reported].
        rewrite lookup_delete_eq. apply andb_false_r. }
      assert (Hc1 : chosenError r req w issuer rc = Some e)
        by (unfold chosenError; by rewrite Ho1).
      assert (Hc2 : chosenError r' req w' issuer rc = Some e)
        by (unfold chosenError; by rewrite Ho2).
      rewrite (Reconcile_check _ _ _ _ _ Hreach).
      rewrite (Reconcile_check _ _ _ _ _ Hreach').
      unfold checkedWorld, patched. rewrite Hc1, Hc2, Ho1, Ho2.
      cbn [fst snd apiserver reported calls].
      rewrite Hdep in Ho1. rewrite Ho1.
      repeat split.
      subst r' w'. rewrite !filter_app. reflexivity.
    + unfold overrides. rewrite Hs. cbn [andb]. split; [done|].
      assert (Hreach' : reachesCheck r req (withoutReport req w) issuer rc)
        by (destruct Hreach; by split).
      assert (Ho : forall x, overrides rc x = false)
        by (intros x; unfold overrides; by rewrite Hs).
      rewrite (Reconcile_check _ _ _ _ _ Hreach).
      rewrite (Reconcile_check _ _ _ _ _ Hreach').
      unfold checkedWorld, chosenError. rewrite !Ho.
      unfold withoutReport. cbn [apiserver reported calls].
      rewrite delete_twice. reflexivity.
  - unfold overrides. by rewrite andb_false_r.
Qed.

(** C2 amended, at work: a Ready=True issuer with a deposited error.  The
    pass does not call Check, and its mailbox is empty afterwards. *)
Lemma C2_deposited_error_consumed_first_witness :
  reachesCheck (Ex.reconciler (fun _ => None)) Ex.key
    (Ex.world (Ex.checked 3) {[ Ex.key := Ex.boom ]})
    (Ex.checked 3)
    (Ex.ready ConditionTrue IssuerConditionReasonChecked
       "Succeeded checking the issuer" 3)
  /\ checkCalls (calls (Reconcile (Ex.reconciler (fun _ => None)) Ex.key
       (fresh (Ex.world (Ex.checked 3) {[ Ex.key := Ex.boom ]}))).2) = []
  /\ reported (Reconcile (Ex.reconciler (fun _ => None)) Ex.key
                 (Ex.world (Ex.checked 3) {[ Ex.key := Ex.boom ]})).2 !! Ex.key
     = None.
Proof.
  assert (Hreach : reachesCheck (Ex.reconciler (fun _ => None)) Ex.key
    (Ex.world (Ex.checked 3) {[ Ex.key := Ex.boom ]})
    (Ex.checked 3)
    (Ex.ready ConditionTrue IssuerConditionReasonChecked
       "Succeeded checking the issuer" 3)).
  { split; first [reflexivity | exact I]. }
  split; [exact Hreach|].
  destruct (C2_deposited_error_consumed_first
              (Ex.reconciler (fun _ => None)) Ex.key
              (Ex.world (Ex.checked 3) {[ Ex.key := Ex.boom ]}))
    as (_ & _ & Hgone & _ & H & _).
  specialize (H _ _ Hreach).
  change (reported (Ex.world (Ex.checked 3) {[ Ex.key := Ex.boom ]}) !! Ex.key)
    with (Some Ex.boom) in H.
  cbn in H. split; [exact (proj1 H) | exact Hgone].
Defined.

(** C3. A pass over an issuer that has no Ready condition never calls
    Check.  When the object is read and not ignored, the pass writes
    Ready = Unknown with reason Initializing and the object's generation
    as observed generation, emits no event and returns the empty result
    with no error.  When the store takes the patch, the object carries
    that condition afterwards, and the next pass over it calls Check,
    once. *)
Theorem C3_initializing_before_check r req w issuer :
  apiserver w !! req = Some issuer ->
  readyOf issuer = None ->
  checkCalls (calls (Reconcile r req (fresh w)).2) = []
  /\ (getFault (client r) = None ->
      notIgnored r issuer ->
      Status (initializing r issuer) = ConditionUnknown
      /\ Reason (initializing r issuer) = "Initializing"
      /\ ObservedGeneration (initializing r issuer) = Generation issuer
      /\ (reconcileStatusPatch r req (fresh w)).1
         = (Result_zero, Some {| Conditions := [initializing r issuer] |}, None)
      /\ events (calls (Reconcile r req (fresh w)).2) = []
      /\ statusPatches (calls (Reconcile r req (fresh w)).2)
         = [(req, {| Conditions := [initializing r issuer] |})]
      /\ (forall stored,
            patchFault (client r) = None ->
            others (client r) (apiserver w) !! req = Some stored ->
            (Reconcile r req (fresh w)).1 = (Result_zero, None)
            /\ reconcileHandler (Reconcile r req (fresh w)).1 = Forget
            /\ apiserver (Reconcile r req (fresh w)).2 !! req
               = Some (applyStatus {| Conditions := [initializing r issuer] |} stored)
            /\ readyOf (applyStatus {| Conditions := [initializing r issuer] |} stored)
               = Some (initializing r issuer)
            /\ forall r2,
                 getFault (client r2) = None ->
                 notIgnored r2 (applyStatus {| Conditions := [initializing r issuer] |} stored) ->
                 checkCalls (calls (Reconcile r2 req
                                      (fresh (Reconcile r req (fresh w)).2)).2)
                 = [applyStatus {| Conditions := [initializing r issuer] |} stored])).
Proof.
  intros Hf Hr. split; [by apply (no_condition_no_check r req w issuer)|].
  intros Hg Ho.
  pose proof (reconcileStatusPatch_initializing r req (fresh w) issuer Hg Hf Hr Ho) as Hrsp.
  pose proof (Reconcile_some_patch _ _ _ _ _ _ _ Hrsp) as Hrec.
  repeat (split; [reflexivity|]).
  split; [by rewrite Hrsp|].
  destruct (initializing_pass_log r req w issuer Hg Hf Hr Ho) as (_ & Hev & Hpatches).
  split; [exact Hev|]. split; [exact Hpatches|].
  rewrite Hrec. cbn [fst snd].
  intros stored Hpf Hstored. cbn [apiserver fresh reported] in *.
  rewrite Hpf, Hstored.
  rewrite (apiserver_patched _ _ _ _ _ stored); [|done..].
  rewrite lookup_insert_eq.
  repeat (split; [reflexivity|]).
  assert (Hready : readyOf (applyStatus {| Conditions := [initializing r issuer] |} stored)
                   = Some (initializing r issuer))
    by (by apply readyOf_applyStatus).
  split; [exact Hready|].
  intros r2 Hg2 Ho2.
  set (stored' := applyStatus _ stored) in *.
  match goal with
  | |- checkCalls (calls (Reconcile r2 req (fresh ?w2)).2) = _ => set (w' := w2)
  end.
  assert (Hreach : reachesCheck r2 req (fresh w') stored' (initializing r issuer)).
  { split; try done.
    - unfold w'. cbn [fresh apiserver].
      rewrite (apiserver_patched _ _ _ _ _ stored); [|done..].
      apply lookup_insert_eq.
    - unfold isFailed. by rewrite Hready. }
  rewrite (Reconcile_check _ _ _ _ _ Hreach). cbn [snd].
  by rewrite checkCalls_checkedWorld.
Qed.

(** C3 at work: a fresh issuer at generation 3. *)
Lemma C3_initializing_before_check_witness :
  readyOf (Ex.issuer 3 []) = None
  /\ statusPatches (calls (Reconcile (Ex.reconciler (fun _ => None)) Ex.key
                             (fresh (Ex.world (Ex.issuer 3 []) ∅))).2)
     = [(Ex.key,
         {| Conditions :=
              [initializing (Ex.reconciler (fun _ => None)) (Ex.issuer 3 [])] |})]
  /\ checkCalls (calls (Reconcile (Ex.reconciler (fun _ => None)) Ex.key
                          (fresh (Ex.world (Ex.issuer 3 []) ∅))).2) = [].
Proof.
  split; [reflexivity|].
  destruct (C3_initializing_before_check
              (Ex.reconciler (fun _ => None)) Ex.key
              (Ex.world (Ex.issuer 3 []) ∅) (Ex.issuer 3 [])
              (lookup_singleton_eq _ _) eq_refl)
    as (Hchecks & Hrest).
  destruct (Hrest eq_refl I) as (_ & _ & _ & _ & _ & Hpatches & _).
  split; [exact Hpatches | exact Hchecks].
Defined.

Lemma reachesCheck_fresh r req w issuer rc :
  reachesCheck r req w issuer rc -> reachesCheck r req (fresh w) issuer rc.
Proof. intros []. by split. Qed.

Lemma events_checkedWorld r req w issuer rc patch :
  events (calls (patched (client r) req (FieldOwner r) patch
                   (checkedWorld r req (fresh w) issuer rc)))
  = [verdictEvent issuer (verdict (chosenError r req w issuer rc))].
Proof.
  unfold patched, checkedWorld, fresh, ignoreCall. cbn [calls reported].
  rewrite !events_app.
  by destruct (IgnoreIssuer r), (overrides rc (reported w !! req)).
Qed.

Lemma statusPatches_checkedWorld r req w issuer rc patch :
  statusPatches (calls (patched (client r) req (FieldOwner r) patch
                          (checkedWorld r req (fresh w) issuer rc)))
  = [(req, patch)].
Proof.
  unfold patched, checkedWorld, fresh, ignoreCall. cbn [calls reported].
  rewrite !statusPatches_app.
  by destruct (IgnoreIssuer r), (overrides rc (reported w !! req)).
Qed.

(** The text of an error does not decide its class: an error that prints
    like [e] but has no [PermanentError] in its chain is not permanent. *)
Lemma same_text_not_permanent e :
  Error (errorString (Error e)) = Error e
  /\ errors_As_PermanentError (errorString (Error e)) = false.
Proof. done. Qed.

(** The Ready condition of a patch written by the check step. *)
Lemma readyPatch_fields r issuer status reason message :
  exists cond,
    readyPatch r issuer status reason message = {| Conditions := [cond] |}
    /\ Type_ cond = IssuerConditionReady
    /\ Status cond = status
    /\ Reason cond = reason
    /\ Message cond = message
    /\ ObservedGeneration cond = Generation issuer.
Proof. eexists. repeat split. Qed.

(** C4. The check step ended with error [e], from [Check] or from the
    mailbox.  If a [PermanentError] is found along the [Unwrap] chain of
    [e], at any depth, the pass sets Ready to False with reason Failed and
    message "Issuer has failed permanently: <e>": that condition, at the
    object's generation, is the status patch of the pass, the patch is
    sent as the last call of the pass, and when the store takes it the
    stored object carries the condition.  The pass returns
    [reconcile.TerminalError(e)], which controller-runtime does not retry,
    whatever the store answers to the patch.  Otherwise the pass sets
    Ready to False with reason Pending and message "Issuer is not ready
    yet: <e>" in the same way and returns [e] itself, which is requeued
    with backoff, also when the store refuses the patch with an error
    other than NotFound.  The class depends on the chain, not on the
    text. *)
Theorem C4_permanent_or_retryable r req w issuer rc e :
  reachesCheck r req w issuer rc ->
  chosenError r req w issuer rc = Some e ->
  ((exists inner, InChain e (PermanentError inner)) ->
     exists cond,
       (reconcileStatusPatch r req w).1
       = (Result_zero, Some {| Conditions := [cond] |}, Some (TerminalError e))
       /\ Type_ cond = "Ready"
       /\ Status cond = ConditionFalse
       /\ Reason cond = "Failed"
       /\ Message cond = "Issuer has failed permanently: " +:+ Error e
       /\ ObservedGeneration cond = Generation issuer
       /\ statusPatches (calls (Reconcile r req (fresh w)).2)
          = [(req, {| Conditions := [cond] |})]
       /\ (exists before,
             calls (Reconcile r req w).2
             = before ++ [CallStatusPatch req (FieldOwner r) {| Conditions := [cond] |}])
       /\ reconcileHandler (Result_zero, Some (TerminalError e)) = NoRetry
       /\ reconcileHandler (Reconcile r req w).1 <> AddRateLimited
       /\ (forall stored,
             patchFault (client r) = None ->
             others (client r) (apiserver w) !! req = Some stored ->
             (Reconcile r req w).1 = (Result_zero, Some (TerminalError e))
             /\ apiserver (Reconcile r req w).2 !! req
                = Some (applyStatus {| Conditions := [cond] |} stored)
             /\ readyOf (applyStatus {| Conditions := [cond] |} stored) = Some cond))
  /\ (~ (exists inner, InChain e (PermanentError inner)) ->
     exists cond,
       (reconcileStatusPatch r req w).1
       = (Result_zero, Some {| Conditions := [cond] |}, Some (plainError e))
       /\ Type_ cond = "Ready"
       /\ Status cond = ConditionFalse
       /\ Reason cond = "Pending"
       /\ Message cond = "Issuer is not ready yet: " +:+ Error e
       /\ ObservedGeneration cond = Generation issuer
       /\ statusPatches (calls (Reconcile r req (fresh w)).2)
          = [(req, {| Conditions := [cond] |})]
       /\ (exists before,
             calls (Reconcile r req w).2
             = before ++ [CallStatusPatch req (FieldOwner r) {| Conditions := [cond] |}])
       /\ reconcileHandler (Result_zero, Some (plainError e)) = AddRateLimited
       /\ (forall stored,
             patchFault (client r) = None ->
             others (client r) (apiserver w) !! req = Some stored ->
             (Reconcile r req w).1 = (Result_zero, Some (plainError e))
             /\ reconcileHandler (Reconcile r req w).1 = AddRateLimited
             /\ apiserver (Reconcile r req w).2 !! req
                = Some (applyStatus {| Conditions := [cond] |} stored)
             /\ readyOf (applyStatus {| Conditions := [cond] |} stored) = Some cond)
       /\ (forall perr,
             patchFault (client r) = Some perr ->
             IsNotFound perr = false ->
             (Reconcile r req w).1
             = (Result_zero, Some (Aggregate [plainError perr; plainError e]))
             /\ reconcileHandler (Reconcile r req w).1 = AddRateLimited))
  /\ errors_As_PermanentError (errorString (Error e)) = false.
Proof.
  intros Hreach Hchosen.
  pose proof (reachesCheck_fresh _ _ _ _ _ Hreach) as Hfresh.
  rewrite (reconcileStatusPatch_check _ _ _ _ _ Hreach).
  rewrite (Reconcile_check _ _ _ _ _ Hreach).
  rewrite (Reconcile_check _ _ _ _ _ Hfresh).
  change (chosenError r req (fresh w) issuer rc)
    with (chosenError r req w issuer rc).
  cbn [fst snd]. rewrite statusPatches_checkedWorld.
  rewrite Hchosen. cbn [verdict].
  split; [|split; [|done]].
  - intros Hperm. apply errors_As_PermanentError_chain in Hperm.
    rewrite Hperm. unfold verdictPatch. cbn [vError vStatus vReason vMessage].
    destruct (readyPatch_fields r issuer ConditionFalse
                IssuerConditionReasonFailed
                ("Issuer has failed permanently: " +:+ Error e))
      as (cond & -> & Hty & ? & ? & ? & ?).
    exists cond. do 7 (split; [done|]).
    split; [by eexists|]. split; [done|]. split.
    + destruct (patchFault (client r)) as [perr|].
      * by destruct (IsNotFound perr).
      * by destruct (others (client r) (apiserver w) !! req).
    + intros stored Hpf Hst.
      rewrite (apiserver_patched _ _ _ _ _ stored); [|done..].
      rewrite lookup_insert_eq, Hpf, Hst.
      do 2 (split; [done|]). by apply readyOf_applyStatus.
  - intros Hnot.
    assert (Hperm : errors_As_PermanentError e = false).
    { destruct (errors_As_PermanentError e) eqn:E; [|done].
      by apply errors_As_PermanentError_chain in E. }
    rewrite Hperm. unfold verdictPatch. cbn [vError vStatus vReason vMessage].
    destruct (readyPatch_fields r issuer ConditionFalse
                IssuerConditionReasonPending
                ("Issuer is not ready yet: " +:+ Error e))
      as (cond & -> & Hty & ? & ? & ? & ?).
    exists cond. do 7 (split; [done|]).
    split; [by eexists|]. split; [done|]. split.
    + intros stored Hpf Hst.
      rewrite (apiserver_patched _ _ _ _ _ stored); [|done..].
      rewrite lookup_insert_eq, Hpf, Hst.
      do 3 (split; [done|]). by apply readyOf_applyStatus.
    + intros perr -> ->. done.
Qed.

(** C4 at work: [Check] returns a permanent error wrapped twice; the
    issuer was Pending. *)
Lemma C4_permanent_or_retryable_witness :
  reachesCheck
    (Ex.reconciler (fun _ => Some (wrapError "ca: " (wrapError "auth: " (PermanentError Ex.boom)))))
    Ex.key (Ex.world (Ex.pending 3) ∅) (Ex.pending 3)
    (Ex.ready ConditionFalse IssuerConditionReasonPending
       "Issuer is not ready yet: [error message]" 3)
  /\ (exists inner,
        InChain (wrapError "ca: " (wrapError "auth: " (PermanentError Ex.boom)))
                (PermanentError inner))
  /\ exists cond,
       Status cond = ConditionFalse
       /\ Reason cond = "Failed"
       /\ Message cond = "Issuer has failed permanently: ca: auth: [error message]"
       /\ apiserver
            (Reconcile
               (Ex.reconciler (fun _ => Some (wrapError "ca: " (wrapError "auth: " (PermanentError Ex.boom)))))
               Ex.key (Ex.world (Ex.pending 3) ∅)).2 !! Ex.key
          = Some (applyStatus {| Conditions := [cond] |} (Ex.pending 3))
       /\ readyOf (applyStatus {| Conditions := [cond] |} (Ex.pending 3)) = Some cond
       /\ reconcileHandler
            (Reconcile
               (Ex.reconciler (fun _ => Some (wrapError "ca: " (wrapError "auth: " (PermanentError Ex.boom)))))
               Ex.key (Ex.world (Ex.pending 3) ∅)).1 <> AddRateLimited.
Proof.
  assert (Hreach : reachesCheck
    (Ex.reconciler (fun _ => Some (wrapError "ca: " (wrapError "auth: " (PermanentError Ex.boom)))))
    Ex.key (Ex.world (Ex.pending 3) ∅) (Ex.pending 3)
    (Ex.ready ConditionFalse IssuerConditionReasonPending
       "Issuer is not ready yet: [error message]" 3)).
  { split; first [reflexivity | exact I]. }
  assert (Hchain : exists inner,
    InChain (wrapError "ca: " (wrapError "auth: " (PermanentError Ex.boom)))
            (PermanentError inner)).
  { exists Ex.boom.
    eapply InChain_next; [reflexivity|].
    eapply InChain_next; [reflexivity|]. apply InChain_here. }
  split; [exact Hreach|]. split; [exact Hchain|].
  destruct (C4_permanent_or_retryable _ _ _ _ _ _ Hreach eq_refl) as [Hperm _].
  destruct (Hperm Hchain)
    as (cond & _ & _ & Hs & Hr & Hm & _ & _ & _ & _ & Hno & Hstore).
  destruct (Hstore (Ex.pending 3) eq_refl (lookup_singleton_eq _ _))
    as (_ & Hst & Hready).
  exists cond. repeat split; assumption.
Defined.

Lemma getAnswer_fresh c req w : getAnswer c req (fresh w) = getAnswer c req w.
Proof. unfold getAnswer, serveGet, fresh. cbn. by repeat case_match. Qed.

(** A pass whose status patch is answered with an error. *)
Lemma Reconcile_patch_error r req w res patch rerr w1 err :
  reconcileStatusPatch r req w = ((res, Some patch, rerr), w1) ->
  patchAnswer (client r) req w1 = Some err ->
  (Reconcile r req w).1 =
    if IsNotFound err then (Result_zero, None)
    else (Result_zero, NewAggregate [Some (plainError err); rerr]).
Proof.
  intros Hrsp. unfold patchAnswer, servePatch.
  rewrite (Reconcile_some_patch _ _ _ _ _ _ _ Hrsp). cbn [fst].
  destruct (patchFault (client r)) as [perr|].
  - by intros [= ->].
  - destruct (others (client r) (apiserver w1) !! req); [done|].
    by intros [= <-].
Qed.

(** C8. When the Get is answered NotFound, and when the status patch is
    answered NotFound, the pass returns the empty result with no error,
    which is not requeued.  When the Get fails in any other way the pass
    returns an error, which is requeued with backoff, and sends no status
    patch. *)
Theorem C8_not_found_is_done r req w :
  (forall err,
     getAnswer (client r) req w = inr err ->
     IsNotFound err = true ->
     (Reconcile r req (fresh w)).1 = (Result_zero, None)
     /\ reconcileHandler (Reconcile r req (fresh w)).1 = Forget
     /\ statusPatches (calls (Reconcile r req (fresh w)).2) = [])
  /\ (forall res patch rerr w1 err,
        reconcileStatusPatch r req w = ((res, Some patch, rerr), w1) ->
        patchAnswer (client r) req w1 = Some err ->
        IsNotFound err = true ->
        (Reconcile r req w).1 = (Result_zero, None)
        /\ reconcileHandler (Reconcile r req w).1 = Forget)
  /\ (forall err,
        getAnswer (client r) req w = inr err ->
        IsNotFound err = false ->
        (Reconcile r req (fresh w)).1
        = (Result_zero,
           Some (plainError (errorString ("unexpected get error: " +:+ Error err))))
        /\ reconcileHandler (Reconcile r req (fresh w)).1 = AddRateLimited
        /\ statusPatches (calls (Reconcile r req (fresh w)).2) = []
        /\ (reconcileStatusPatch r req (fresh w)).1.1.2 = None).
Proof.
  split; [|split].
  - intros err Hget Hnf. rewrite <- getAnswer_fresh in Hget.
    rewrite (Reconcile_get_error _ _ _ _ Hget), Hnf. done.
  - intros res patch rerr w1 err Hrsp Hans Hnf.
    rewrite (Reconcile_patch_error _ _ _ _ _ _ _ _ Hrsp Hans), Hnf. done.
  - intros err Hget Hnf. rewrite <- getAnswer_fresh in Hget.
    pose proof (Reconcile_get_error _ _ _ _ Hget) as Hrec.
    rewrite Hrec, Hnf. repeat (split; [done|]).
    destruct (reconcileStatusPatch r req (fresh w)) as [[[res [patch|]] rerr] w1] eqn:E;
      [|done].
    exfalso.
    pose proof (Reconcile_some_patch _ _ _ _ _ _ _ E) as Hrec'.
    rewrite Hrec in Hrec'. injection Hrec' as _ _ _ Hcalls.
    destruct (reconcileStatusPatch_frame r req (fresh w)) as (_ & _ & rest & Hw1).
    rewrite E in Hw1. cbn [snd fresh calls] in Hw1. rewrite Hw1 in Hcalls.
    cbn in Hcalls. destruct rest; discriminate.
Qed.

(** C8 at work: the object is not in the store; and the Get times out. *)
Lemma C8_not_found_is_done_witness :
  (getAnswer Ex.quiet Ex.key {| apiserver := ∅; reported := ∅; calls := [] |}
   = inr (statusError StatusReasonNotFound "issuer issuer-1 not found")
   /\ (Reconcile (Ex.reconciler (fun _ => None)) Ex.key
         (fresh {| apiserver := ∅; reported := ∅; calls := [] |})).1
      = (Result_zero, None))
  /\ reconcileHandler
       (Reconcile
          {| FieldOwner := "simple-issuer";
             client := {| getFault := Some (statusError StatusReasonTimeout "timeout");
                          patchFault := None; others := fun store => store |};
             Check := fun _ => None; IgnoreIssuer := None; Clock := 100 |}
          Ex.key (fresh (Ex.world (Ex.checked 3) ∅))).1 = AddRateLimited.
Proof.
  split; [split; [reflexivity|]|].
  - destruct (C8_not_found_is_done (Ex.reconciler (fun _ => None)) Ex.key
                {| apiserver := ∅; reported := ∅; calls := [] |}) as (H & _ & _).
    exact (proj1 (H _ eq_refl eq_refl)).
  - match goal with
    | |- reconcileHandler (Reconcile ?r _ (fresh ?w)).1 = _ =>
        destruct (C8_not_found_is_done r Ex.key w) as (_ & _ & H)
    end.
    exact (proj1 (proj2 (H _ eq_refl eq_refl))).
Defined.

(** C9, as stated, fails: the first pass over an issuer without a Ready
    condition changes its status (no condition before, Ready = Unknown
    with reason Initializing after) and emits no event. *)
Lemma C9_initializing_without_event_counterexample :
  readyOf (Ex.issuer 3 []) = None
  /\ (exists stored,
        apiserver (Reconcile (Ex.reconciler (fun _ => None)) Ex.key
                     (Ex.world (Ex.issuer 3 []) ∅)).2 !! Ex.key = Some stored
        /\ option_map Status (readyOf stored) = Some ConditionUnknown
        /\ option_map Reason (readyOf stored) = Some "Initializing")
  /\ events (calls (Reconcile (Ex.reconciler (fun _ => None)) Ex.key
                      (Ex.world (Ex.issuer 3 []) ∅)).2) = [].
Proof.
  split; [reflexivity|]. split; [|vm_compute; reflexivity].
  eexists. split; [vm_compute; reflexivity|]. split; reflexivity.
Qed.

(** C9, amended.  A pass that reaches the check step emits exactly one
    event, on the object it read, whether or not the Ready status
    changes: Normal with reason Checked when the step ends without
    error, Warning with reason PermanentError when it ends with a
    permanent error, Warning with reason RetryableError for any other
    error; the event's message is the message of the Ready condition in
    the status patch of that pass.  The pass that writes the first
    condition, Unknown/Initializing, emits no event. *)
Theorem C9_one_event_per_check r req w issuer :
  (forall rc,
     reachesCheck r req w issuer rc ->
     exists cond ev,
       statusPatches (calls (Reconcile r req (fresh w)).2)
       = [(req, {| Conditions := [cond] |})]
       /\ events (calls (Reconcile r req (fresh w)).2) = [ev]
       /\ involvedObject ev = ObjectKey issuer
       /\ message ev = Message cond
       /\ match chosenError r req w issuer rc with
          | None =>
              eventtype ev = "Normal" /\ reason ev = "Checked"
              /\ Status cond = ConditionTrue /\ Reason cond = "Checked"
          | Some e =>
              eventtype ev = "Warning"
              /\ Status cond = ConditionFalse
              /\ if errors_As_PermanentError e
                 then reason ev = "PermanentError" /\ Reason cond = "Failed"
                 else reason ev = "RetryableError" /\ Reason cond = "Pending"
          end)
  /\ (getFault (client r) = None ->
      apiserver w !! req = Some issuer ->
      readyOf issuer = None ->
      notIgnored r issuer ->
      statusPatches (calls (Reconcile r req (fresh w)).2)
      = [(req, {| Conditions := [initializing r issuer] |})]
      /\ events (calls (Reconcile r req (fresh w)).2) = []).
Proof.
  split.
  - intros rc Hreach.
    rewrite (Reconcile_check _ _ _ _ _ (reachesCheck_fresh _ _ _ _ _ Hreach)).
    cbn [snd]. rewrite events_checkedWorld, statusPatches_checkedWorld.
    change (chosenError r req (fresh w) issuer rc)
      with (chosenError r req w issuer rc).
    set (v := verdict (chosenError r req w issuer rc)).
    destruct (readyPatch_fields r issuer (vStatus v) (vReason v) (vMessage v))
      as (cond & Hpatch & _ & Hs & Hr & Hm & _).
    exists cond, (verdictEvent issuer v).
    unfold verdictPatch. rewrite Hpatch, Hs, Hr, Hm.
    repeat (split; [reflexivity|]).
    subst v. destruct (chosenError r req w issuer rc) as [e|]; cbn [verdict].
    + by destruct (errors_As_PermanentError e).
    + done.
  - intros Hg Hf Hr Ho.
    destruct (initializing_pass_log r req w issuer Hg Hf Hr Ho)
      as (_ & Hev & Hpatches).
    done.
Qed.

(** C9 amended, at work: a Ready=True issuer whose Check fails stays an
    issuer with one Warning event per pass. *)
Lemma C9_one_event_per_check_witness :
  reachesCheck (Ex.reconciler (fun _ => Some Ex.boom)) Ex.key
    (Ex.world (Ex.checked 3) ∅) (Ex.checked 3)
    (Ex.ready ConditionTrue IssuerConditionReasonChecked
       "Succeeded checking the issuer" 3)
  /\ exists cond ev,
       events (calls (Reconcile (Ex.reconciler (fun _ => Some Ex.boom)) Ex.key
                        (fresh (Ex.world (Ex.checked 3) ∅))).2) = [ev]
       /\ message ev = Message cond
       /\ reason ev = "RetryableError".
Proof.
  assert (Hreach : reachesCheck (Ex.reconciler (fun _ => Some Ex.boom)) Ex.key
    (Ex.world (Ex.checked 3) ∅) (Ex.checked 3)
    (Ex.ready ConditionTrue IssuerConditionReasonChecked
       "Succeeded checking the issuer" 3)).
  { split; first [reflexivity | exact I]. }
  split; [exact Hreach|].
  destruct (C9_one_event_per_check (Ex.reconciler (fun _ => Some Ex.boom)) Ex.key
              (Ex.world (Ex.checked 3) ∅) (Ex.checked 3)) as [H _].
  destruct (H _ Hreach) as (cond & ev & _ & Hev & _ & Hmsg & Hcase).
  exists cond, ev. split; [exact Hev|]. split; [exact Hmsg|].
  exact (proj1 (proj2 (proj2 Hcase))).
Defined.

(** [reconcileStatusPatch] computes the patch; it does not send it. *)
Lemma reconcileStatusPatch_sends_nothing r req w :
  statusPatches (calls (reconcileStatusPatch r req w).2) = statusPatches (calls w).
Proof.
  unfold_pass. unfold setCondition, conditions.SetIssuerStatusCondition.
  destruct (getFault (client r)) as [err|].
  { destruct (IsNotFound err); cbn; rewrite !statusPatches_app; cbn;
      by rewrite !app_nil_r. }
  destruct (apiserver w !! req) as [issuer|]; cbn;
    [|rewrite !statusPatches_app; cbn; by rewrite !app_nil_r].
  fold (readyOf issuer).
  destruct (readyOf issuer) as [rc|]; cbn.
  - destruct (_ && _ && _); cbn;
      [rewrite !statusPatches_app; cbn; by rewrite !app_nil_r|].
    destruct (IgnoreIssuer r) as [f|]; cbn;
      [destruct (f issuer) as [[|] [e|]]; cbn;
       try (rewrite !statusPatches_app; cbn; by rewrite !app_nil_r)|];
      (destruct (_ && negb _); cbn;
       [destruct (reported w !! req) as [e|]
       |destruct (Check r issuer) as [e|]]; cbn;
       try destruct (errors_As_PermanentError e); cbn;
       rewrite !statusPatches_app; cbn; by rewrite !app_nil_r).
  - destruct (IgnoreIssuer r) as [f|]; cbn;
      [destruct (f issuer) as [[|] [e|]]; cbn|];
      rewrite !statusPatches_app; cbn; by rewrite !app_nil_r.
Qed.

(** The three ways to no patch that the pass takes on purpose. *)
Lemma nil_patch_not_found r req w err :
  getAnswer (client r) req w = inr err ->
  IsNotFound err = true ->
  (reconcileStatusPatch r req w).1 = (Result_zero, None, None).
Proof.
  unfold getAnswer, serveGet. intros H Hnf. unfold_pass.
  destruct (getFault (client r)) as [err'|].
  - injection H as ->. by rewrite Hnf.
  - destruct (apiserver w !! req) as [issuer|]; [done|].
    injection H as <-. done.
Qed.

Lemma nil_patch_failed r req w issuer :
  getFault (client r) = None ->
  apiserver w !! req = Some issuer ->
  terminallyFailed issuer ->
  (reconcileStatusPatch r req w).1 = (Result_zero, None, None).
Proof.
  intros Hg Hf (rc & Hrc & Hs & Hr & Hgen). unfold_pass. rewrite Hg, Hf.
  fold (readyOf issuer). rewrite Hrc.
  by rewrite (terminallyFailed_isFailed issuer rc).
Qed.

Lemma nil_patch_ignored r req w issuer f :
  getFault (client r) = None ->
  apiserver w !! req = Some issuer ->
  isFailed issuer = false ->
  IgnoreIssuer r = Some f ->
  f issuer = (true, None) ->
  (reconcileStatusPatch r req w).1 = (Result_zero, None, None).
Proof.
  intros Hg Hf Ha Hi Hfi. unfold_pass. rewrite Hg, Hf.
  unfold isFailed in Ha. fold (readyOf issuer).
  destruct (readyOf issuer) as [rc|]; rewrite ?Ha, Hi; cbn; by rewrite Hfi.
Qed.

(** C10. Whenever [reconcileStatusPatch] returns a patch, [Reconcile]
    sends it to the store as the last call of the pass, before it
    returns, also when the pass ends with an error; when the store takes
    the patch, the stored object carries the patch afterwards and the
    error of the pass is returned unchanged.  In particular a check step
    that ended with an error publishes its Ready = False condition, Failed
    or Pending.  A pass sends no status patch exactly when the computed
    patch is nil, and the patch is nil when the object is not found, when
    it is permanently failed and when it is ignored. *)
Theorem C10_patch_sent_before_error_returned r req w :
  (forall res patch rerr w1,
     reconcileStatusPatch r req (fresh w) = ((res, Some patch, rerr), w1) ->
     calls (Reconcile r req (fresh w)).2
     = calls w1 ++ [CallStatusPatch req (FieldOwner r) patch]
     /\ statusPatches (calls (Reconcile r req (fresh w)).2) = [(req, patch)]
     /\ forall stored,
          patchFault (client r) = None ->
          others (client r) (apiserver w1) !! req = Some stored ->
          apiserver (Reconcile r req (fresh w)).2 !! req
          = Some (applyStatus patch stored)
          /\ (Reconcile r req (fresh w)).1 = (res, rerr))
  /\ (forall issuer rc e,
        reachesCheck r req w issuer rc ->
        chosenError r req w issuer rc = Some e ->
        exists cond rerr,
          (reconcileStatusPatch r req (fresh w)).1
          = (Result_zero, Some {| Conditions := [cond] |}, Some rerr)
          /\ Type_ cond = "Ready"
          /\ Status cond = ConditionFalse
          /\ (Reason cond = "Failed" \/ Reason cond = "Pending")
          /\ forall stored,
               patchFault (client r) = None ->
               others (client r) (apiserver w) !! req = Some stored ->
               apiserver (Reconcile r req (fresh w)).2 !! req
               = Some (applyStatus {| Conditions := [cond] |} stored)
               /\ readyOf (applyStatus {| Conditions := [cond] |} stored) = Some cond
               /\ (Reconcile r req (fresh w)).1 = (Result_zero, Some rerr))
  /\ (statusPatches (calls (Reconcile r req (fresh w)).2) = []
      <-> (reconcileStatusPatch r req (fresh w)).1.1.2 = None)
  /\ (forall err,
        getAnswer (client r) req w = inr err -> IsNotFound err = true ->
        (reconcileStatusPatch r req (fresh w)).1.1.2 = None)
  /\ (forall issuer,
        getFault (client r) = None -> apiserver w !! req = Some issuer ->
        terminallyFailed issuer ->
        (reconcileStatusPatch r req (fresh w)).1.1.2 = None)
  /\ (forall issuer f,
        getFault (client r) = None -> apiserver w !! req = Some issuer ->
        isFailed issuer = false ->
        IgnoreIssuer r = Some f -> f issuer = (true, None) ->
        (reconcileStatusPatch r req (fresh w)).1.1.2 = None).
Proof.
  assert (Hsent : forall res patch rerr w1,
    reconcileStatusPatch r req (fresh w) = ((res, Some patch, rerr), w1) ->
    statusPatches (calls (Reconcile r req (fresh w)).2) = [(req, patch)]).
  { intros res patch rerr w1 Hrsp.
    rewrite (Reconcile_some_patch _ _ _ _ _ _ _ Hrsp). cbn [snd patched calls].
    pose proof (reconcileStatusPatch_sends_nothing r req (fresh w)) as Hnone.
    rewrite Hrsp in Hnone. cbn [snd fresh calls] in Hnone.
    rewrite statusPatches_app, Hnone. done. }
  split; [|split; [|split; [|split; [|split]]]].
  - intros res patch rerr w1 Hrsp.
    split; [by rewrite (Reconcile_some_patch _ _ _ _ _ _ _ Hrsp)|].
    split; [by eapply Hsent|].
    intros stored Hpf Hst.
    rewrite (Reconcile_some_patch _ _ _ _ _ _ _ Hrsp). cbn [fst snd].
    rewrite (apiserver_patched _ _ _ _ _ stored Hpf Hst), lookup_insert_eq.
    by rewrite Hpf, Hst.
  - intros issuer rc e Hreach Hchosen.
    apply reachesCheck_fresh in Hreach.
    change (chosenError r req w issuer rc)
      with (chosenError r req (fresh w) issuer rc) in Hchosen.
    pose proof (reconcileStatusPatch_check _ _ _ _ _ Hreach) as Hrsp.
    pose proof (Reconcile_some_patch _ _ _ _ _ _ _ Hrsp) as Hrec.
    rewrite Hrsp, Hrec. rewrite Hchosen in *. unfold verdictPatch in *.
    set (v := verdict (Some e)) in *.
    destruct (readyPatch_fields r issuer (vStatus v) (vReason v) (vMessage v))
      as (cond & Hpatch & Hty & Hs & Hr & _ & _).
    rewrite Hpatch in *.
    assert (Hv : vStatus v = ConditionFalse
                 /\ (vReason v = "Failed" \/ vReason v = "Pending")
                 /\ exists rerr, vError v = Some rerr).
    { subst v. cbn. destruct (errors_As_PermanentError e); cbn; eauto. }
    destruct Hv as (Hvs & Hvr & rerr & Hve).
    exists cond, rerr. cbn [fst snd]. rewrite Hve.
    split; [done|]. split; [done|]. split; [congruence|].
    split; [destruct Hvr; [left|right]; congruence|].
    intros stored Hpf Hst.
    rewrite (apiserver_patched _ _ _ _ _ stored); [|done..].
    rewrite lookup_insert_eq, Hpf.
    change (apiserver (checkedWorld r req (fresh w) issuer rc)) with (apiserver w).
    rewrite Hst.
    split; [done|]. split; [by apply readyOf_applyStatus|done].
  - destruct (reconcileStatusPatch r req (fresh w)) as [[[res [patch|]] rerr] w1] eqn:E.
    + rewrite (Hsent _ _ _ _ eq_refl). cbn. split; discriminate.
    + split; [done|]. intros _.
      rewrite (Reconcile_nil_patch _ _ _ _ _ _ E). cbn [snd].
      pose proof (reconcileStatusPatch_sends_nothing r req (fresh w)) as Hnone.
      by rewrite E in Hnone.
  - intros err Hget Hnf. rewrite <- getAnswer_fresh in Hget.
    by rewrite (nil_patch_not_found _ _ _ _ Hget Hnf).
  - intros issuer Hg Hf Hfailed.
    by rewrite (nil_patch_failed r req (fresh w) issuer Hg Hf Hfailed).
  - intros issuer f Hg Hf Ha Hi Hfi.
    by rewrite (nil_patch_ignored r req (fresh w) issuer f Hg Hf Ha Hi Hfi).
Qed.

(** C10 at work: [Check] fails on a Ready=True issuer; the Pending
    condition is in the store when the error is returned. *)
Lemma C10_patch_sent_before_error_returned_witness :
  reachesCheck (Ex.reconciler (fun _ => Some Ex.boom)) Ex.key
    (Ex.world (Ex.checked 3) ∅) (Ex.checked 3)
    (Ex.ready ConditionTrue IssuerConditionReasonChecked
       "Succeeded checking the issuer" 3)
  /\ exists cond rerr,
       Status cond = ConditionFalse
       /\ apiserver (Reconcile (Ex.reconciler (fun _ => Some Ex.boom)) Ex.key
                       (fresh (Ex.world (Ex.checked 3) ∅))).2 !! Ex.key
          = Some (applyStatus {| Conditions := [cond] |} (Ex.checked 3))
       /\ (Reconcile (Ex.reconciler (fun _ => Some Ex.boom)) Ex.key
             (fresh (Ex.world (Ex.checked 3) ∅))).1 = (Result_zero, Some rerr).
Proof.
  assert (Hreach : reachesCheck (Ex.reconciler (fun _ => Some Ex.boom)) Ex.key
    (Ex.world (Ex.checked 3) ∅) (Ex.checked 3)
    (Ex.ready ConditionTrue IssuerConditionReasonChecked
       "Succeeded checking the issuer" 3)).
  { split; first [reflexivity | exact I]. }
  split; [exact Hreach|].
  destruct (C10_patch_sent_before_error_returned
              (Ex.reconciler (fun _ => Some Ex.boom)) Ex.key
              (Ex.world (Ex.checked 3) ∅)) as (_ & H & _).
  destruct (H _ _ Ex.boom Hreach eq_refl) as (cond & rerr & _ & _ & Hs & _ & Hstore).
  destruct (Hstore (Ex.checked 3) eq_refl (lookup_singleton_eq _ _))
    as (Hst & _ & Hret).
  exists cond, rerr. split; [exact Hs|]. split; [exact Hst | exact Hret].
Defined.

(** * Properties of the request reconciler *)

(** A pass that reaches Sign. *)
Lemma request_Reconcile_sign r key w req existing issuer :
  request.reachesSign w key req existing issuer ->
  request.Reconcile r key w =
    match request.Sign r req issuer with
    | inl signed =>
        request.conclude r req (Some signed) request.Success
          (request.callSign req issuer w)
    | inr err =>
        request.conclude r req (request.Certificate req) (request.outcomeOf err)
          (match request.classify err, errors_As_IssuerError err with
           | request.KindIssuer, Some inner =>
               request.deposit (request.IssuerRef req) inner
                 (request.callSign req issuer w)
           | _, _ => request.callSign req issuer w
           end)
    end.
Proof.
  intros [Hf Hk Hr Ha Hi]. unfold request.Reconcile.
  by rewrite Hf, Hr, Ha, Hi.
Qed.

(** A pass over a request whose Ready condition is terminal does
    nothing. *)
Lemma request_Reconcile_terminal r key w req existing :
  request.requests w !! key = Some req ->
  request.Ready req = Some existing ->
  request.terminal req existing = true ->
  request.Reconcile r key w = ((Result_zero, None), w).
Proof.
  intros Hf Hr Ht. unfold request.Reconcile. by rewrite Hf, Hr, Ht.
Qed.

Lemma request_passes_terminal rs key w req existing :
  request.requests w !! key = Some req ->
  request.Ready req = Some existing ->
  request.terminal req existing = true ->
  (request.passes rs key w).2 = w.
Proof.
  intros Hf Hr Ht. induction rs as [|r rs IH]; [done|].
  cbn [request.passes].
  rewrite (request_Reconcile_terminal r key w req existing Hf Hr Ht).
  by destruct (request.passes rs key w).
Qed.

(** C7. The request reconciler finds the referenced trust-anchor with a
    Ready condition that is up to date and not True: the request's Ready
    condition becomes False with reason Pending, and its message quotes
    the trust-anchor's reason and message as they are; Sign is not
    called. *)
Theorem C7_request_quotes_issuer_condition r key w req existing issuer rc :
  request.requests w !! key = Some req ->
  request.RequestKey req = key ->
  request.Ready req = Some existing ->
  request.terminal req existing = false ->
  request.issuers w !! request.IssuerRef req = Some issuer ->
  readyOf issuer = Some rc ->
  (Generation issuer <= ObservedGeneration rc)%Z ->
  Status rc <> ConditionTrue ->
  exists req' cond,
    request.requests (request.Reconcile r key w).2 !! key = Some req'
    /\ request.Ready req' = Some cond
    /\ Type_ cond = "Ready"
    /\ Status cond = ConditionFalse
    /\ Reason cond = "Pending"
    /\ Message cond
       = "Issuer is not Ready yet. Current ready condition is "
         +:+ request.dquote +:+ Reason rc +:+ request.dquote +:+ ": "
         +:+ Message rc +:+ ". Waiting for it to become ready."
    /\ request.signCalls (request.Reconcile r key w).2 = request.signCalls w.
Proof.
  intros Hf Hk Hr Ha Hi Hrc Hgen Hs.
  unfold request.Reconcile, request.waitForIssuer.
  rewrite Hf, Hr, Ha, Hi, Hrc.
  assert ((ObservedGeneration rc <? Generation issuer)%Z = false) as ->
    by (by apply Z.ltb_ge).
  assert (ConditionStatus_eqb (Status rc) ConditionTrue = false) as ->
    by (by destruct (Status rc)).
  cbn [negb]. unfold request.conclude, request.writeCondition,
    request.computeReadyCondition, request.escalate.
  rewrite Hr, Hk. cbn [snd request.requests request.signCalls].
  do 2 eexists. rewrite lookup_insert_eq. repeat split.
Qed.

(** C7 at work, with the two trust-anchor conditions of the tests: a
    Pending issuer and a Failed one. *)
Lemma C7_request_quotes_issuer_condition_witness :
  (exists req' cond,
     request.requests
       (request.Reconcile
          (request.mkRequestReconciler "simple-issuer" 60000 (fun _ _ => inl "cert") 1000)
          Ex.key
          (request.mkWorld
             {[ Ex.key := request.mkRequest Ex.key Ex.key 1 "doo"
                            (Some (Ex.ready ConditionUnknown "Initializing" "init" 1)) None ]}
             {[ Ex.key := Ex.failed 70 70 ]} ∅ ∅ [])).2 !! Ex.key = Some req'
     /\ request.Ready req' = Some cond
     /\ Status cond = ConditionFalse
     /\ Reason cond = "Pending"
     /\ Message cond
        = "Issuer is not Ready yet. Current ready condition is "
          +:+ request.dquote +:+ "Failed" +:+ request.dquote
          +:+ ": Issuer has failed permanently: [error message]. Waiting for it to become ready.").
Proof.
  destruct (C7_request_quotes_issuer_condition
    (request.mkRequestReconciler "simple-issuer" 60000 (fun _ _ => inl "cert") 1000)
    Ex.key
    (request.mkWorld
       {[ Ex.key := request.mkRequest Ex.key Ex.key 1 "doo"
                      (Some (Ex.ready ConditionUnknown "Initializing" "init" 1)) None ]}
       {[ Ex.key := Ex.failed 70 70 ]} ∅ ∅ [])
    _ _ (Ex.failed 70 70) _
    (lookup_singleton_eq _ _) eq_refl eq_refl eq_refl
    (lookup_singleton_eq _ _) eq_refl ltac:(cbn; lia) ltac:(discriminate))
    as (req' & cond & H1 & H2 & _ & H3 & H4 & H5 & _).
  exists req', cond. repeat split; assumption.
Defined.

(** The first expectation of the tests: a Pending trust-anchor. *)
Example request_quotes_pending_issuer :
  option_map Message
    (mbind request.Ready
      (request.requests
         (request.Reconcile
            (request.mkRequestReconciler "simple-issuer" 60000 (fun _ _ => inl "cert") 1000)
            Ex.key
            (request.mkWorld
               {[ Ex.key := request.mkRequest Ex.key Ex.key 1 "doo"
                              (Some (Ex.ready ConditionUnknown "Initializing" "init" 1)) None ]}
               {[ Ex.key := Ex.pending 70 ]} ∅ ∅ [])).2 !! Ex.key))
  = Some ("Issuer is not Ready yet. Current ready condition is "
          +:+ request.dquote +:+ "Pending" +:+ request.dquote
          +:+ ": Issuer is not ready yet: [error message]. Waiting for it to become ready.").
Proof. vm_compute. reflexivity. Qed.

Lemma request_classify_permanent e :
  request.classify e = request.KindTransient ->
  request.classify (PermanentError e) = request.KindPermanent.
Proof.
  unfold request.classify. cbn [errors_As_IssuerError errors_As_PermanentError].
  by destruct (errors_As_IssuerError e).
Qed.

(** C5. A pass reaches Sign, Sign fails with an error classified
    transient, and the failure incident of the request began more than
    [MaxRetryDuration] ago: the pass leaves the request, the retry
    records, the mailbox and the Sign log exactly as a pass in which Sign
    returned that error as a [PermanentError] would, the request is
    Ready = False with reason Failed, the returned error is terminal (not
    retried) in both, and no later pass over the request calls Sign. *)
Theorem C5_transient_escalates_to_permanent r key w req existing issuer e t0 :
  request.reachesSign w key req existing issuer ->
  request.Sign r req issuer = inr e ->
  request.classify e = request.KindTransient ->
  request.firstFailureTime w !! key = Some t0 ->
  (request.MaxRetryDuration r < request.Clock r - t0)%Z ->
  (request.Reconcile r key w).2
  = (request.Reconcile (request.withSign r (fun _ _ => inr (PermanentError e))) key w).2
  /\ (request.Reconcile r key w).1 = (Result_zero, Some (TerminalError e))
  /\ reconcileHandler (request.Reconcile r key w).1 = NoRetry
  /\ reconcileHandler
       (request.Reconcile (request.withSign r (fun _ _ => inr (PermanentError e))) key w).1
     = NoRetry
  /\ (exists req' cond,
        request.requests (request.Reconcile r key w).2 !! key = Some req'
        /\ request.Ready req' = Some cond
        /\ Status cond = ConditionFalse
        /\ Reason cond = "Failed"
        /\ Message cond = Error e
        /\ ObservedGeneration cond = request.RequestGeneration req
        /\ request.Certificate req' = request.Certificate req)
  /\ (forall rs,
        (request.passes rs key (request.Reconcile r key w).2).2
        = (request.Reconcile r key w).2)
  /\ (forall rs,
        request.signCalls (request.passes rs key (request.Reconcile r key w).2).2
        = request.signCalls w ++ [(req, issuer)]).
Proof.
  intros Hreach Hsign Hclass Hrec Hlate.
  pose proof (request_Reconcile_sign r key w req existing issuer Hreach) as Hpass.
  pose proof (request_Reconcile_sign
                (request.withSign r (fun _ _ => inr (PermanentError e)))
                key w req existing issuer Hreach) as Hperm.
  cbn [request.Sign request.withSign] in Hperm.
  rewrite Hsign in Hpass.
  unfold request.outcomeOf in Hpass, Hperm.
  rewrite Hclass in Hpass. rewrite (request_classify_permanent e Hclass) in Hperm.
  destruct Hreach as [Hf Hk Hr Ha Hi].
  unfold request.conclude, request.observe in Hpass, Hperm.
  cbn [request.firstFailureTime request.callSign] in Hpass, Hperm.
  rewrite Hk, Hrec in Hpass. cbn [request.escalate] in Hpass, Hperm.
  assert ((request.MaxRetryDuration r <? request.Clock r - t0)%Z = true) as Hlt
    by (by apply Z.ltb_lt).
  rewrite Hlt in Hpass.
  unfold request.writeCondition, request.computeReadyCondition in Hpass, Hperm.
  rewrite Hr, Hk in Hpass, Hperm.
  cbn [request.requests request.issuers request.mailbox request.firstFailureTime
       request.signCalls request.callSign request.FieldOwner request.Clock
       request.withSign request.resultOf Error] in Hpass, Hperm.
  rewrite Hpass, Hperm. cbn [fst snd].
  repeat (split; [reflexivity|]).
  split.
  { do 2 eexists. cbn [request.requests]. rewrite lookup_insert_eq.
    repeat split. }
  match goal with
  | |- (forall rs, (request.passes rs key ?W).2 = _) /\ _ => set (w1 := W)
  end.
  assert (Hterm : forall rs, (request.passes rs key w1).2 = w1).
  { intros rs. eapply request_passes_terminal.
    - unfold w1. cbn [request.requests]. apply lookup_insert_eq.
    - reflexivity.
    - unfold request.terminal. cbn. by apply Z.leb_le. }
  split; intros rs; by rewrite Hterm.
Qed.

Lemma RequestEx_reachesSign :
  request.reachesSign RequestEx.world RequestEx.key RequestEx.retrying
    {| Type_ := IssuerConditionReady; Status := ConditionFalse;
       LastTransitionTime := Some 10;
       Reason := request.RequestReasonPending;
       Message := "[error message]"; ObservedGeneration := 1 |}
    (Ex.checked 3).
Proof. split; vm_compute; reflexivity. Qed.

(** C5 at work: the incident began at 0, the budget is 300 and the clock
    reads 1000 when Sign fails again. *)
Lemma C5_transient_escalates_to_permanent_witness :
  request.classify Ex.boom = request.KindTransient
  /\ (request.MaxRetryDuration (RequestEx.reconciler (fun _ _ => inr Ex.boom))
      < request.Clock (RequestEx.reconciler (fun _ _ => inr Ex.boom)) - 0)%Z
  /\ (request.Reconcile (RequestEx.reconciler (fun _ _ => inr Ex.boom))
        RequestEx.key RequestEx.world).1
     = (Result_zero, Some (TerminalError Ex.boom))
  /\ request.signCalls
       (request.passes
          [RequestEx.reconciler (fun _ _ => inl "cert");
           RequestEx.reconciler (fun _ _ => inl "cert")]
          RequestEx.key
          (request.Reconcile (RequestEx.reconciler (fun _ _ => inr Ex.boom))
             RequestEx.key RequestEx.world).2).2
     = [(RequestEx.retrying, Ex.checked 3)].
Proof.
  split; [reflexivity|]. split; [cbn; lia|].
  destruct (C5_transient_escalates_to_permanent
              (RequestEx.reconciler (fun _ _ => inr Ex.boom))
              RequestEx.key RequestEx.world RequestEx.retrying _ (Ex.checked 3)
              Ex.boom 0
              RequestEx_reachesSign eq_refl eq_refl (lookup_singleton_eq _ _)
              ltac:(cbn; lia))
    as (_ & Hout & _ & _ & _ & _ & Hcalls).
  split; [exact Hout|]. exact (Hcalls _).
Defined.

(** C6. A pass reaches Sign and Sign fails with an error classified
    pending.  Whatever the retry record says, also when the incident began
    more than [MaxRetryDuration] ago, the record is left as it is, the
    request is Ready = False with reason Pending (not Failed), and the
    error is returned as it is, which requeues the request with backoff.
    A later pass in which Sign succeeds makes the request Ready = True
    with reason Issued and stores the signed result. *)
Theorem C6_pending_never_escalates r key w req existing issuer e :
  request.reachesSign w key req existing issuer ->
  request.Sign r req issuer = inr e ->
  request.classify e = request.KindPending ->
  request.firstFailureTime (request.Reconcile r key w).2 = request.firstFailureTime w
  /\ (request.Reconcile r key w).1 = (Result_zero, Some (plainError e))
  /\ reconcileHandler (request.Reconcile r key w).1 = AddRateLimited
  /\ exists req1 cond1,
       request.requests (request.Reconcile r key w).2 !! key = Some req1
       /\ request.Ready req1 = Some cond1
       /\ Status cond1 = ConditionFalse
       /\ Reason cond1 = "Pending"
       /\ Message cond1 = Error e
       /\ forall r2 signed,
            request.Sign r2 req1 issuer = inl signed ->
            (request.Reconcile r2 key (request.Reconcile r key w).2).1
            = (Result_zero, None)
            /\ request.signCalls
                 (request.Reconcile r2 key (request.Reconcile r key w).2).2
               = request.signCalls w ++ [(req, issuer); (req1, issuer)]
            /\ exists req2 cond2,
                 request.requests
                   (request.Reconcile r2 key (request.Reconcile r key w).2).2 !! key
                 = Some req2
                 /\ request.Ready req2 = Some cond2
                 /\ Status cond2 = ConditionTrue
                 /\ Reason cond2 = "Issued"
                 /\ request.Certificate req2 = Some signed.
Proof.
  intros Hreach Hsign Hclass.
  pose proof (request_Reconcile_sign r key w req existing issuer Hreach) as Hpass.
  rewrite Hsign in Hpass. unfold request.outcomeOf in Hpass.
  rewrite Hclass in Hpass.
  destruct Hreach as [Hf Hk Hr Ha Hi].
  unfold request.conclude, request.writeCondition,
    request.computeReadyCondition in Hpass.
  rewrite Hr, Hk in Hpass.
  cbn [request.escalate request.resultOf request.requests request.issuers
       request.mailbox request.firstFailureTime request.signCalls
       request.callSign] in Hpass.
  rewrite Hpass. cbn [fst snd request.firstFailureTime].
  repeat (split; [reflexivity|]).
  match goal with
  | |- context [request.Reconcile _ key ?W] => set (w1 := W)
  end.
  match goal with
  | w1 := {| request.requests := <[key := ?R]> _ |} |- _ => set (req1 := R) in *
  end.
  match goal with
  | req1 := {| request.Ready := Some ?C |} |- _ => set (cond1 := C) in *
  end.
  exists req1, cond1.
  split; [unfold w1; cbn [request.requests]; apply lookup_insert_eq|].
  repeat (split; [reflexivity|]).
  intros r2 signed Hsign2.
  assert (Hreach1 : request.reachesSign w1 key req1 cond1 issuer).
  { split.
    - unfold w1. cbn [request.requests]. apply lookup_insert_eq.
    - reflexivity.
    - reflexivity.
    - reflexivity.
    - exact Hi. }
  pose proof (request_Reconcile_sign r2 key w1 req1 cond1 issuer Hreach1) as Hpass2.
  rewrite Hsign2 in Hpass2. rewrite Hpass2.
  unfold request.conclude, request.writeCondition, request.computeReadyCondition,
    request.observe.
  cbn [fst snd request.escalate request.resultOf request.requests
       request.signCalls request.callSign request.Ready req1 w1].
  split; [reflexivity|]. split; [by rewrite <- app_assoc|].
  do 2 eexists. split; [apply lookup_insert_eq|]. repeat split.
Qed.

(** C6 at work: the same late incident as for C5, but Sign answers with a
    [PendingError]; the request is retried and then issued. *)
Lemma C6_pending_never_escalates_witness :
  request.classify (PendingError Ex.boom) = request.KindPending
  /\ request.firstFailureTime
       (request.Reconcile (RequestEx.reconciler (fun _ _ => inr (PendingError Ex.boom)))
          RequestEx.key RequestEx.world).2 !! RequestEx.key = Some 0
  /\ reconcileHandler
       (request.Reconcile (RequestEx.reconciler (fun _ _ => inr (PendingError Ex.boom)))
          RequestEx.key RequestEx.world).1 = AddRateLimited.
Proof.
  split; [reflexivity|].
  destruct (C6_pending_never_escalates
              (RequestEx.reconciler (fun _ _ => inr (PendingError Ex.boom)))
              RequestEx.key RequestEx.world RequestEx.retrying _ (Ex.checked 3)
              (PendingError Ex.boom)
              RequestEx_reachesSign eq_refl eq_refl)
    as (Hrec & _ & Hretry & _).
  split; [|exact Hretry].
  rewrite Hrec. apply lookup_singleton_eq.
Defined.

(** * More properties of the issuer reconciler *)

(** X1. Every pass makes its calls in one order and each at most once:
    the event source, the Get, [IgnoreIssuer], [Check], the event
    recorder, the status patch.  [IgnoreIssuer] and [Check] are only
    called on the object the store holds; a [Check] call is always
    followed by an event, and an event always by a status patch, sent for
    the key of the pass under the reconciler's field owner. *)
Theorem X1_calls_in_fixed_order r req w :
  exists ig ck ev pt,
    calls (Reconcile r req (fresh w)).2
    = [CallHasReportedError req; CallGet req] ++ ig ++ ck ++ ev ++ pt
    /\ (ig = [] \/ exists issuer, apiserver w !! req = Some issuer
                                  /\ ig = [CallIgnoreIssuer issuer])
    /\ (ck = [] \/ exists issuer, apiserver w !! req = Some issuer
                                  /\ ck = [CallCheck issuer])
    /\ (ev = [] \/ exists e, ev = [CallEvent e])
    /\ (pt = [] \/ exists st, pt = [CallStatusPatch req (FieldOwner r) st])
    /\ (ck <> [] -> ev <> [])
    /\ (ev <> [] -> pt <> []).
Proof.
  destruct (pass_cases r req (fresh w))
    as [err Hans|issuer Hf Hfail|issuer f Hg Hf Ha Hi Hfi
       |issuer Hg Hf Hr Ho|issuer rc Hreach].
  - rewrite (Reconcile_get_error _ _ _ _ Hans).
    exists [], [], [], []. cbn. repeat split; auto.
  - rewrite (Reconcile_terminallyFailed _ _ _ _ Hf Hfail).
    exists [], [], [], []. cbn. repeat split; auto.
  - rewrite (Reconcile_ignored _ _ _ _ _ Hg Hf Ha Hi Hfi).
    exists [CallIgnoreIssuer issuer], [], [], []. cbn.
    repeat split; eauto.
  - rewrite (Reconcile_some_patch _ _ _ _ _ _ _
               (reconcileStatusPatch_initializing _ _ _ _ Hg Hf Hr Ho)).
    exists (ignoreCall r issuer), [], [],
      [CallStatusPatch req (FieldOwner r) {| Conditions := [initializing r issuer] |}].
    cbn [snd patched calls fresh]. rewrite <- !app_assoc. cbn [app].
    repeat split; eauto.
    unfold ignoreCall. destruct (IgnoreIssuer r); eauto.
  - rewrite (Reconcile_check _ _ _ _ _ Hreach).
    destruct Hreach as [Hg Hf Hr Ha Ho].
    eexists (ignoreCall r issuer),
      (if overrides rc (reported w !! req) then [] else [CallCheck issuer]),
      [CallEvent _], [CallStatusPatch req (FieldOwner r) _].
    cbn [snd patched checkedWorld calls fresh reported]. rewrite <- !app_assoc.
    cbn [app]. split; [reflexivity|].
    repeat split; eauto.
    + unfold ignoreCall. destruct (IgnoreIssuer r); eauto.
    + destruct (overrides _ _); eauto.
Qed.


(** One pass over an object that [IgnoreIssuer] opts out. *)
Lemma ignored_pass_quiet r req w issuer f :
  apiserver w !! req = Some issuer ->
  isFailed issuer = false ->
  IgnoreIssuer r = Some f ->
  f issuer = (true, None) ->
  apiserver (Reconcile r req w).2 = apiserver w
  /\ reported (Reconcile r req w).2 = delete req (reported w)
  /\ checkCalls (calls (Reconcile r req w).2) = checkCalls (calls w)
  /\ statusPatches (calls (Reconcile r req w).2) = statusPatches (calls w)
  /\ events (calls (Reconcile r req w).2) = events (calls w)
  /\ (getFault (client r) = None -> (Reconcile r req w).1 = (Result_zero, None)).
Proof.
  intros Hf Ha Hi Hfi.
  destruct (getFault (client r)) as [err|] eqn:Hg.
  - rewrite (Reconcile_get_error r req w err);
      [|unfold getAnswer, serveGet; by rewrite Hg].
    cbn. rewrite checkCalls_app, statusPatches_app, events_app. cbn.
    by rewrite !app_nil_r.
  - rewrite (Reconcile_ignored r req w issuer f Hg Hf Ha Hi);
      [|by rewrite Hfi].
    rewrite Hfi. cbn. rewrite checkCalls_app, statusPatches_app, events_app. cbn.
    by rewrite !app_nil_r.
Qed.

(** X2. An issuer that [IgnoreIssuer] opts out is never touched: over any
    number of passes in which the callback answers (true, nil) for it,
    whatever the Get faults and the errors deposited in between, the
    stored object stays as it is and no Check call, status patch or event
    is made; every pass whose Get is served returns the empty result with
    no error.  Errors deposited for the object are thrown away: after the
    last pass the mailbox has no entry for it. *)
Theorem X2_ignored_issuer_is_never_touched (ps : list Pass) req w issuer :
  apiserver w !! req = Some issuer ->
  isFailed issuer = false ->
  Forall (fun p => exists f, IgnoreIssuer (reconciler p) = Some f
                             /\ f issuer = (true, None)) ps ->
  apiserver (passes ps req w).2 = apiserver w
  /\ checkCalls (calls (passes ps req w).2) = checkCalls (calls w)
  /\ statusPatches (calls (passes ps req w).2) = statusPatches (calls w)
  /\ events (calls (passes ps req w).2) = events (calls w)
  /\ (ps <> [] -> reported (passes ps req w).2 !! req = None)
  /\ Forall2 (fun p out =>
               getFault (client (reconciler p)) = None -> out = (Result_zero, None))
             ps (passes ps req w).1.
Proof.
  intros Hf Ha Hall. revert w Hf.
  induction Hall as [|p ps (f & Hi & Hfi) Hall IH]; intros w Hf.
  { cbn. repeat split; [done|constructor]. }
  cbn [passes].
  set (w1 := foldl _ w (deposits p)).
  destruct (deposits_keep_store req (deposits p) w) as [Hstore Hcalls].
  fold w1 in Hstore, Hcalls.
  assert (Hf1 : apiserver w1 !! req = Some issuer) by (by rewrite Hstore).
  destruct (ignored_pass_quiet (reconciler p) req w1 issuer f Hf1 Ha Hi Hfi)
    as (Hs & Hrep & Hck & Hpt & Hev & Hout).
  destruct (Reconcile (reconciler p) req w1) as [out w2] eqn:E. cbn [fst snd] in *.
  assert (Hf2 : apiserver w2 !! req = Some issuer) by (by rewrite Hs).
  specialize (IH w2 Hf2).
  destruct (passes ps req w2) as [outs w3] eqn:E2. cbn [fst snd] in *.
  destruct IH as (-> & -> & -> & -> & Hlast & Houts).
  rewrite Hs, Hck, Hpt, Hev, Hstore, Hcalls. repeat (split; [done|]).
  split.
  - intros _. destruct ps as [|p' ps'].
    + cbn in E2. injection E2 as <- <-.
      rewrite Hrep. apply lookup_delete_eq.
    + by apply Hlast.
  - constructor; [exact Hout|exact Houts].
Qed.

(** X2 at work: two passes over an opted out issuer, with an error
    deposited before the second. *)
Lemma X2_ignored_issuer_is_never_touched_witness :
  isFailed (Ex.checked 3) = false
  /\ apiserver (passes [mkPass (Ex2.ignoring (true, None)) [];
                        mkPass (Ex2.ignoring (true, None)) [Ex.boom]]
                       Ex.key (Ex.world (Ex.checked 3) ∅)).2
     = apiserver (Ex.world (Ex.checked 3) ∅)
  /\ reported (passes [mkPass (Ex2.ignoring (true, None)) [];
                       mkPass (Ex2.ignoring (true, None)) [Ex.boom]]
                      Ex.key (Ex.world (Ex.checked 3) ∅)).2 !! Ex.key = None.
Proof.
  split; [reflexivity|].
  destruct (X2_ignored_issuer_is_never_touched
              [mkPass (Ex2.ignoring (true, None)) [];
               mkPass (Ex2.ignoring (true, None)) [Ex.boom]]
              Ex.key (Ex.world (Ex.checked 3) ∅) (Ex.checked 3)
              (lookup_singleton_eq _ _) eq_refl)
    as (Hstore & _ & _ & _ & Hlast & _).
  { repeat constructor; by eexists. }
  split; [exact Hstore|]. apply Hlast. discriminate.
Defined.

(** X3. An error from [IgnoreIssuer] ends the pass whatever verdict came
    with it: the pass returns "failed to check if issuer should be
    ignored: <err>", a plain error that is requeued with backoff also
    when [err] is a [PermanentError], and nothing is checked or written;
    the deposited error of the object is gone all the same. *)
Theorem X3_ignore_error_is_retried r req w issuer f verdict err :
  getFault (client r) = None ->
  apiserver w !! req = Some issuer ->
  isFailed issuer = false ->
  IgnoreIssuer r = Some f ->
  f issuer = (verdict, Some err) ->
  Reconcile r req (fresh w)
  = ((Result_zero,
      Some (plainError (errorString
              ("failed to check if issuer should be ignored: " +:+ Error err)))),
     {| apiserver := apiserver w;
        reported := delete req (reported w);
        calls := [CallHasReportedError req; CallGet req; CallIgnoreIssuer issuer] |})
  /\ reconcileHandler (Reconcile r req (fresh w)).1 = AddRateLimited.
Proof.
  intros Hg Hf Ha Hi Hfi.
  rewrite (Reconcile_ignored r req (fresh w) issuer f Hg Hf Ha Hi);
    [|by rewrite Hfi].
  by rewrite Hfi.
Qed.

(** X3 at work: the callback says "ignore" and fails with a permanent
    error. *)
Lemma X3_ignore_error_is_retried_witness :
  reconcileHandler
    (Reconcile (Ex2.ignoring (true, Some (PermanentError Ex.boom))) Ex.key
       (fresh (Ex.world (Ex.checked 3) ∅))).1 = AddRateLimited.
Proof.
  exact (proj2 (X3_ignore_error_is_retried
                  (Ex2.ignoring (true, Some (PermanentError Ex.boom))) Ex.key
                  (Ex.world (Ex.checked 3) ∅) (Ex.checked 3) _ true
                  (PermanentError Ex.boom)
                  eq_refl (lookup_singleton_eq _ _) eq_refl eq_refl eq_refl)).
Defined.

(** X4. Whatever a pass sends as status patch names the key of the pass
    and holds exactly one condition, of type Ready, whose observed
    generation is the generation of the object in the store.  Ready =
    True is only sent by a pass that called [Check] on that object and
    got nil; Ready = Unknown is only sent for an object without a Ready
    condition. *)
Theorem X4_status_patch_invariant r req w key st :
  (key, st) ∈ statusPatches (calls (Reconcile r req (fresh w)).2) ->
  key = req
  /\ exists issuer cond,
       apiserver w !! req = Some issuer
       /\ st = {| Conditions := [cond] |}
       /\ Type_ cond = "Ready"
       /\ ObservedGeneration cond = Generation issuer
       /\ (Status cond = ConditionTrue ->
           checkCalls (calls (Reconcile r req (fresh w)).2) = [issuer]
           /\ Check r issuer = None)
       /\ (Status cond = ConditionUnknown -> readyOf issuer = None).
Proof.
  destruct (pass_cases r req (fresh w))
    as [err Hans|issuer Hf Hfail|issuer f Hg Hf Ha Hi Hfi
       |issuer Hg Hf Hr Ho|issuer rc Hreach].
  - rewrite (Reconcile_get_error _ _ _ _ Hans). cbn. by intros ?%elem_of_nil.
  - rewrite (Reconcile_terminallyFailed _ _ _ _ Hf Hfail). cbn.
    by intros ?%elem_of_nil.
  - rewrite (Reconcile_ignored _ _ _ _ _ Hg Hf Ha Hi Hfi). cbn.
    by intros ?%elem_of_nil.
  - destruct (initializing_pass_log r req w issuer Hg Hf Hr Ho) as (_ & _ & ->).
    intros [= -> ->]%list_elem_of_singleton. split; [done|].
    exists issuer, (initializing r issuer). by repeat split.
  - rewrite (Reconcile_check _ _ _ _ _ Hreach). cbn [snd].
    rewrite statusPatches_checkedWorld, checkCalls_checkedWorld.
    intros [= -> ->]%list_elem_of_singleton. split; [done|].
    destruct Hreach as [Hg Hf Hr Ha Ho].
    change (chosenError r req (fresh w) issuer rc)
      with (chosenError r req w issuer rc).
    set (v := verdict (chosenError r req w issuer rc)).
    destruct (readyPatch_fields r issuer (vStatus v) (vReason v) (vMessage v))
      as (cond & Hpatch & Hty & Hs & _ & _ & Hgen).
    exists issuer, cond. unfold verdictPatch. fold v. rewrite Hpatch.
    repeat (split; [done|]). rewrite Hs. subst v. unfold chosenError.
    destruct (overrides rc (reported w !! req)) eqn:Hov.
    + destruct (reported w !! req) as [e|] eqn:Hrep.
      * cbn. destruct (errors_As_PermanentError e); split; discriminate.
      * unfold overrides in Hov. by rewrite andb_false_r in Hov.
    + destruct (Check r issuer) as [e|].
      * cbn. destruct (errors_As_PermanentError e); split; discriminate.
      * cbn. split; [done|discriminate].
Qed.

(** X4 at work: the patch of a pass whose Check succeeds. *)
Lemma X4_status_patch_invariant_witness :
  exists st,
    (Ex.key, st) ∈ statusPatches
      (calls (Reconcile (Ex.reconciler (fun _ => None)) Ex.key
                (fresh (Ex.world (Ex.pending 3) ∅))).2)
    /\ exists issuer cond,
         st = {| Conditions := [cond] |}
         /\ ObservedGeneration cond = Generation issuer.
Proof.
  eexists. split.
  - vm_compute. apply list_elem_of_here.
  - match goal with
    | |- exists issuer cond, ?st = _ /\ _ =>
        destruct (X4_status_patch_invariant (Ex.reconciler (fun _ => None))
                    Ex.key (Ex.world (Ex.pending 3) ∅) Ex.key st)
          as (_ & issuer & cond & _ & Hst & _ & Hgen & _)
    end.
    { vm_compute. apply list_elem_of_here. }
    exists issuer, cond. split; [exact Hst | exact Hgen].
Defined.

(** X5. When the check step ends without error, whatever the Ready
    condition was before, the pass writes Ready = True with reason
    Checked, the message "Succeeded checking the issuer" and the object's
    generation as observed generation, emits one Normal event and hands
    back no error; when the store takes the patch the object carries the
    condition and the request is not requeued. *)
Theorem X5_successful_check_marks_ready r req w issuer rc :
  reachesCheck r req w issuer rc ->
  chosenError r req w issuer rc = None ->
  exists cond,
    (reconcileStatusPatch r req (fresh w)).1
    = (Result_zero, Some {| Conditions := [cond] |}, None)
    /\ Type_ cond = "Ready"
    /\ Status cond = ConditionTrue
    /\ Reason cond = "Checked"
    /\ Message cond = "Succeeded checking the issuer"
    /\ ObservedGeneration cond = Generation issuer
    /\ events (calls (Reconcile r req (fresh w)).2)
       = [{| involvedObject := ObjectKey issuer; eventtype := "Normal";
             reason := "Checked"; message := "Succeeded checking the issuer" |}]
    /\ forall stored,
         patchFault (client r) = None ->
         others (client r) (apiserver w) !! req = Some stored ->
         (Reconcile r req (fresh w)).1 = (Result_zero, None)
         /\ reconcileHandler (Reconcile r req (fresh w)).1 = Forget
         /\ apiserver (Reconcile r req (fresh w)).2 !! req
            = Some (applyStatus {| Conditions := [cond] |} stored)
         /\ readyOf (applyStatus {| Conditions := [cond] |} stored) = Some cond.
Proof.
  intros Hreach Hchosen.
  apply reachesCheck_fresh in Hreach.
  change (chosenError r req w issuer rc)
    with (chosenError r req (fresh w) issuer rc) in Hchosen.
  rewrite (reconcileStatusPatch_check _ _ _ _ _ Hreach).
  rewrite (Reconcile_check _ _ _ _ _ Hreach). cbn [fst snd].
  rewrite events_checkedWorld.
  change (chosenError r req w issuer rc)
    with (chosenError r req (fresh w) issuer rc).
  rewrite Hchosen. cbn [verdict]. unfold verdictPatch, verdictEvent.
  cbn [vStatus vReason vMessage vError vEventType vEventReason].
  destruct (readyPatch_fields r issuer ConditionTrue IssuerConditionReasonChecked
              "Succeeded checking the issuer")
    as (cond & -> & Hty & Hs & Hr & Hm & Hgen).
  exists cond. repeat (split; [done|]).
  intros stored Hpf Hst.
  rewrite (apiserver_patched _ _ _ _ _ stored); [|done..].
  rewrite lookup_insert_eq, Hpf.
  change (apiserver (fresh w)) with (apiserver w). rewrite Hst.
  repeat (split; [done|]). by apply readyOf_applyStatus.
Qed.

(** X5 at work: a Pending issuer recovers. *)
Lemma X5_successful_check_marks_ready_witness :
  reachesCheck (Ex.reconciler (fun _ => None)) Ex.key (Ex.world (Ex.pending 3) ∅)
    (Ex.pending 3)
    (Ex.ready ConditionFalse IssuerConditionReasonPending
       "Issuer is not ready yet: [error message]" 3)
  /\ exists cond,
       Status cond = ConditionTrue
       /\ apiserver (Reconcile (Ex.reconciler (fun _ => None)) Ex.key
                       (fresh (Ex.world (Ex.pending 3) ∅))).2 !! Ex.key
          = Some (applyStatus {| Conditions := [cond] |} (Ex.pending 3)).
Proof.
  assert (Hreach : reachesCheck (Ex.reconciler (fun _ => None)) Ex.key
    (Ex.world (Ex.pending 3) ∅) (Ex.pending 3)
    (Ex.ready ConditionFalse IssuerConditionReasonPending
       "Issuer is not ready yet: [error message]" 3)).
  { split; first [reflexivity | exact I]. }
  split; [exact Hreach|].
  destruct (X5_successful_check_marks_ready _ _ _ _ _ Hreach eq_refl)
    as (cond & _ & _ & Hs & _ & _ & _ & _ & Hstore).
  destruct (Hstore (Ex.pending 3) eq_refl (lookup_singleton_eq _ _))
    as (_ & _ & Hst & _).
  exists cond. split; [exact Hs | exact Hst].
Defined.

(** X6. When the store refuses the status patch with an error other than
    NotFound, the condition of the pass is not written, although its
    event has been emitted, and [Reconcile] returns the aggregate of the
    patch error and the error of the pass, in that order.  The request is
    requeued with backoff unless the error of the pass was permanent: the
    terminal error inside the aggregate stops the retries, so a Failed
    condition that could not be written is not tried again. *)
Theorem X6_refused_patch r req w issuer rc perr :
  reachesCheck r req w issuer rc ->
  patchFault (client r) = Some perr ->
  IsNotFound perr = false ->
  (Reconcile r req (fresh w)).1
  = (Result_zero,
     Some (Aggregate
             (plainError perr ::
              match chosenError r req w issuer rc with
              | None => []
              | Some e =>
                  if errors_As_PermanentError e then [TerminalError e]
                  else [plainError e]
              end)))
  /\ apiserver (Reconcile r req (fresh w)).2 = others (client r) (apiserver w)
  /\ length (events (calls (Reconcile r req (fresh w)).2)) = 1%nat
  /\ reconcileHandler (Reconcile r req (fresh w)).1
     = match chosenError r req w issuer rc with
       | Some e => if errors_As_PermanentError e then NoRetry else AddRateLimited
       | None => AddRateLimited
       end.
Proof.
  intros Hreach Hpf Hnf.
  apply reachesCheck_fresh in Hreach.
  rewrite (Reconcile_check _ _ _ _ _ Hreach). cbn [fst snd].
  rewrite events_checkedWorld. rewrite Hpf, Hnf.
  change (chosenError r req (fresh w) issuer rc)
    with (chosenError r req w issuer rc).
  unfold patched. cbn [apiserver]. rewrite Hpf.
  change (apiserver (checkedWorld r req (fresh w) issuer rc)) with (apiserver w).
  destruct (chosenError r req w issuer rc) as [e|]; cbn [verdict];
    [destruct (errors_As_PermanentError e)|]; done.
Qed.

(** X6 at work: the check fails for good and the patch runs into a
    conflict. *)
Lemma X6_refused_patch_witness :
  reachesCheck (Ex2.refused (fun _ => Some (PermanentError Ex.boom)) Ex2.conflict)
    Ex.key (Ex.world (Ex.pending 3) ∅) (Ex.pending 3)
    (Ex.ready ConditionFalse IssuerConditionReasonPending
       "Issuer is not ready yet: [error message]" 3)
  /\ reconcileHandler
       (Reconcile (Ex2.refused (fun _ => Some (PermanentError Ex.boom)) Ex2.conflict)
          Ex.key (fresh (Ex.world (Ex.pending 3) ∅))).1 = NoRetry
  /\ apiserver
       (Reconcile (Ex2.refused (fun _ => Some (PermanentError Ex.boom)) Ex2.conflict)
          Ex.key (fresh (Ex.world (Ex.pending 3) ∅))).2
     = apiserver (Ex.world (Ex.pending 3) ∅).
Proof.
  assert (Hreach : reachesCheck
    (Ex2.refused (fun _ => Some (PermanentError Ex.boom)) Ex2.conflict)
    Ex.key (Ex.world (Ex.pending 3) ∅) (Ex.pending 3)
    (Ex.ready ConditionFalse IssuerConditionReasonPending
       "Issuer is not ready yet: [error message]" 3)).
  { split; first [reflexivity | exact I]. }
  split; [exact Hreach|].
  destruct (X6_refused_patch _ _ _ _ _ Ex2.conflict Hreach eq_refl eq_refl)
    as (_ & Hstore & _ & Hretry).
  split; [exact Hretry | exact Hstore].
Defined.

(** * Setting the controller up *)

Lemma setups_without_callback mgrs :
  filter isPostSetup (setups None mgrs).2 = [].
Proof.
  induction mgrs as [|mgr mgrs IH]; [done|].
  cbn [setups]. unfold SetupWithManager.
  destruct (setGroupVersionKind mgr), (build mgr);
    destruct (setups None mgrs) as [field log]; cbn [snd] in *;
    by rewrite filter_app, IH.
Qed.

(** X7. [PostSetupWithManager] is a one-shot callback: however often the
    reconciler is set up, it is called at most once, only in a setup
    whose [SetGroupVersionKind] and [Build] both succeeded, and the field
    is cleared by that setup also when the callback itself returns an
    error.  A setup that fails earlier keeps the callback for the next
    attempt. *)
Theorem X7_post_setup_runs_once post mgrs :
  (length (filter isPostSetup (setups post mgrs).2) <= 1)%nat
  /\ (forall mgr,
        setGroupVersionKind mgr = None -> build mgr = None ->
        (SetupWithManager post mgr).1.1 = None
        /\ (SetupWithManager post mgr).1.2
           = match post with Some postSetup => postSetup mgr | None => None end)
  /\ (forall mgr,
        (setGroupVersionKind mgr <> None \/ build mgr <> None) ->
        (SetupWithManager post mgr).1.1 = post
        /\ (SetupWithManager post mgr).1.2 <> None
        /\ filter isPostSetup (SetupWithManager post mgr).2 = []).
Proof.
  split; [|split].
  - revert post. induction mgrs as [|mgr mgrs IH]; intros post; [cbn; lia|].
    cbn [setups]. unfold SetupWithManager.
    destruct (setGroupVersionKind mgr) as [e1|].
    { specialize (IH post). destruct (setups post mgrs) as [field log].
      cbn [snd] in *. by rewrite filter_app. }
    destruct (build mgr) as [e2|].
    { specialize (IH post). destruct (setups post mgrs) as [field log].
      cbn [snd] in *. by rewrite filter_app. }
    pose proof (setups_without_callback mgrs) as Hnone.
    destruct post as [postSetup|];
      destruct (setups None mgrs) as [field log]; cbn [snd] in *;
      rewrite filter_app, Hnone; vm_compute; lia.
  - intros mgr Hs Hb. unfold SetupWithManager. rewrite Hs, Hb.
    by destruct post.
  - intros mgr Hfail. unfold SetupWithManager.
    destruct (setGroupVersionKind mgr) as [e1|]; [done|].
    destruct (build mgr) as [e2|]; [done|].
    by destruct Hfail.
Qed.

(** X7 at work: a failing build, then two successful setups; the callback
    fails. *)
Lemma X7_post_setup_runs_once_witness :
  filter isPostSetup
    (setups (Some (fun _ => Some Ex.boom))
       [mkManager None (Some Ex.boom); mkManager None None; mkManager None None]).2
  = [CallPostSetupWithManager]
  /\ (SetupWithManager (Some (fun _ => Some Ex.boom)) (mkManager None None)).1.1 = None.
Proof.
  split; [reflexivity|].
  destruct (X7_post_setup_runs_once (Some (fun _ => Some Ex.boom)) []) as (_ & H & _).
  exact (proj1 (H (mkManager None None) eq_refl eq_refl)).
Defined.

(** * The conformance helper *)

Lemma usage_map_lookup (us : list Z) (m : gmap Z bool) e :
  foldl (fun m e => <[e := true]> m) m us !! e
  = if decide (e ∈ us) then Some true else m !! e.
Proof.
  revert m. induction us as [|u us IH]; intros m; cbn [foldl].
  - by rewrite decide_False by apply not_elem_of_nil.
  - rewrite IH. destruct (decide (e ∈ us)) as [Hin|Hnin].
    + by rewrite decide_True by (by apply list_elem_of_further).
    + destruct (decide (e = u)) as [->|Hne].
      * rewrite lookup_insert_eq. by rewrite decide_True by apply list_elem_of_here.
      * rewrite lookup_insert_ne by done.
        rewrite decide_False; [done|].
        intros [?|?]%elem_of_cons; done.
Qed.

Lemma omap_all_true (l : list (Z * bool)) :
  Forall (fun kv => kv.2 = true) l ->
  omap (fun kv => if (kv.2 : bool) then Some kv.1 else None) l = l.*1.
Proof.
  induction 1 as [|[k b] l Hb _ IH]; [done|].
  cbn in *. subst. by rewrite IH.
Qed.

Lemma deduplicate_elements (us : list Z) :
  NoDup (helper.deduplicateExtKeyUsages us)
  /\ (forall e, e ∈ helper.deduplicateExtKeyUsages us <-> e ∈ us)
  /\ (length (helper.deduplicateExtKeyUsages us) <= length us)%nat.
Proof.
  unfold helper.deduplicateExtKeyUsages.
  set (m := foldl (fun m e => <[e := true]> m) (∅ : gmap Z bool) us).
  assert (Hm : forall e, m !! e = if decide (e ∈ us) then Some true else None).
  { intros e. unfold m. by rewrite usage_map_lookup, lookup_empty. }
  assert (Hall : Forall (fun kv : Z * bool => kv.2 = true) (map_to_list m)).
  { apply Forall_forall. intros [k b] Hkb%elem_of_map_to_list.
    rewrite Hm in Hkb. case_decide; by simplify_eq. }
  rewrite (omap_all_true _ Hall).
  assert (Hnodup : NoDup (map_to_list m).*1) by apply NoDup_fst_map_to_list.
  assert (Hmem : forall e, e ∈ (map_to_list m).*1 <-> e ∈ us).
  { intros e. rewrite list_elem_of_fmap. split.
    - intros ([k b] & -> & Hkb%elem_of_map_to_list). cbn.
      rewrite Hm in Hkb. by case_decide.
    - intros Hin. exists (e, true). split; [done|].
      apply elem_of_map_to_list. rewrite Hm. by rewrite decide_True. }
  split; [done|]. split; [done|].
  apply submseteq_length, NoDup_submseteq; [done|].
  intros e. by rewrite Hmem.
Qed.

(** X8. [deduplicateExtKeyUsages] returns every usage of its argument
    exactly once and nothing else, so the result is never longer than the
    argument, and deduplicating twice gives the usages of deduplicating
    once. *)
Theorem X8_deduplicate_keeps_each_usage_once (us : list Z) :
  NoDup (helper.deduplicateExtKeyUsages us)
  /\ (forall e, e ∈ helper.deduplicateExtKeyUsages us <-> e ∈ us)
  /\ (length (helper.deduplicateExtKeyUsages us) <= length us)%nat
  /\ helper.deduplicateExtKeyUsages (helper.deduplicateExtKeyUsages us)
     ≡ₚ helper.deduplicateExtKeyUsages us.
Proof.
  destruct (deduplicate_elements us) as (Hnd & Hmem & Hlen).
  destruct (deduplicate_elements (helper.deduplicateExtKeyUsages us))
    as (Hnd2 & Hmem2 & _).
  repeat (split; [done|]).
  by apply NoDup_Permutation.
Qed.

Lemma sameAtEveryIndex_eq (a b : list Z) :
  length a = length b -> (helper.sameAtEveryIndex a b = true <-> a = b).
Proof.
  revert b. induction a as [|x a IH]; intros [|y b] Hlen; try done.
  cbn [helper.sameAtEveryIndex]. injection Hlen as Hlen.
  destruct (x =? y)%Z eqn:E; cbn [negb].
  - apply Z.eqb_eq in E as ->. rewrite (IH b Hlen). split; congruence.
  - apply Z.eqb_neq in E. split; [done|congruence].
Qed.

Lemma SliceStable_sorts (s : list Z) :
  helper.SliceStable s ≡ₚ s /\ Sorted Z.le (helper.SliceStable s).
Proof.
  split; [apply merge_sort_Permutation|apply (Sorted_merge_sort Z.le)].
Qed.

Lemma SliceStable_eq_iff (a b : list Z) :
  helper.SliceStable a = helper.SliceStable b <-> a ≡ₚ b.
Proof.
  destruct (SliceStable_sorts a) as [Hpa Hsa], (SliceStable_sorts b) as [Hpb Hsb].
  split.
  - intros Heq. by rewrite <- Hpa, Heq.
  - intros Hperm. apply (Sorted_unique Z.le); [done..|].
    by rewrite Hpa, Hpb.
Qed.

(** X9. [keyUsagesMatch] answers true exactly when the two key usage
    masks are equal and the two lists of extended key usages hold the
    same usages the same number of times, in any order. *)
Theorem X9_keyUsagesMatch_up_to_order (aKU bKU : Z) (aEKU bEKU : list Z) :
  (helper.keyUsagesMatch aKU aEKU bKU bEKU).1.1 = true
  <-> aKU = bKU /\ aEKU ≡ₚ bEKU.
Proof.
  unfold helper.keyUsagesMatch.
  destruct (aKU =? bKU)%Z eqn:Eku; cbn [negb].
  2: { apply Z.eqb_neq in Eku. cbn. split; [done|]. by intros [? _]. }
  apply Z.eqb_eq in Eku as ->.
  destruct (length aEKU =? length bEKU)%nat eqn:Elen; cbn [negb fst].
  2: { apply Nat.eqb_neq in Elen. split; [done|].
       intros [_ Hperm]. by apply Permutation_length in Hperm. }
  apply Nat.eqb_eq in Elen.
  rewrite sameAtEveryIndex_eq, SliceStable_eq_iff;
    [split; [by intros ?|by intros [_ ?]]|].
  destruct (SliceStable_sorts aEKU) as [Hpa _], (SliceStable_sorts bEKU) as [Hpb _].
  by rewrite (Permutation_length Hpa), (Permutation_length Hpb).
Qed.

(** X10. [keyUsagesMatch] reorders its arguments: when the masks are
    equal and the lists have one length, the caller finds both lists
    sorted in ascending order afterwards, with the usages they had; in
    the other cases the lists are left as they were. *)
Theorem X10_keyUsagesMatch_sorts_in_place (aKU bKU : Z) (aEKU bEKU : list Z) :
  (helper.keyUsagesMatch aKU aEKU bKU bEKU).1.2 ≡ₚ aEKU
  /\ (helper.keyUsagesMatch aKU aEKU bKU bEKU).2 ≡ₚ bEKU
  /\ (aKU = bKU -> length aEKU = length bEKU ->
      Sorted Z.le (helper.keyUsagesMatch aKU aEKU bKU bEKU).1.2
      /\ Sorted Z.le (helper.keyUsagesMatch aKU aEKU bKU bEKU).2)
  /\ (aKU <> bKU \/ length aEKU <> length bEKU ->
      (helper.keyUsagesMatch aKU aEKU bKU bEKU).1.2 = aEKU
      /\ (helper.keyUsagesMatch aKU aEKU bKU bEKU).2 = bEKU).
Proof.
  unfold helper.keyUsagesMatch.
  destruct (SliceStable_sorts aEKU) as [Hpa Hsa], (SliceStable_sorts bEKU) as [Hpb Hsb].
  destruct (aKU =? bKU)%Z eqn:Eku; cbn [negb].
  2: { apply Z.eqb_neq in Eku. cbn.
       split; [done|]. split; [done|]. split; [by intros ?|by intros _]. }
  apply Z.eqb_eq in Eku.
  destruct (length aEKU =? length bEKU)%nat eqn:Elen; cbn [negb fst snd].
  2: { apply Nat.eqb_neq in Elen.
       split; [done|]. split; [done|]. split; [by intros _ ?|by intros _]. }
  apply Nat.eqb_eq in Elen.
  split; [done|]. split; [done|]. split; [by intros _ _|].
  by intros [?|?].
Qed.

(** X10 at work: the caller's list comes back in another order. *)
Lemma X10_keyUsagesMatch_sorts_in_place_witness :
  (helper.keyUsagesMatch 0 [2; 1] 0 [1; 2]).1.2 = [1; 2]
  /\ Sorted Z.le (helper.keyUsagesMatch 0 [2; 1] 0 [1; 2]).1.2.
Proof.
  split; [reflexivity|].
  destruct (X10_keyUsagesMatch_sorts_in_place 0 0 [2; 1] [1; 2])
    as (_ & _ & H & _).
  exact (proj1 (H eq_refl eq_refl)).
Defined.

(** X11. For an issuer that is found, [defaultKeyUsagesToAdd] returns no
    error, the key agreement bit exactly when the issuer is a Vault
    issuer and no other bit, server auth exactly when it is an ACME, a
    Vault or a Venafi issuer, client auth exactly when it is an ACME or a
    Vault issuer, and no other extended usage.  Server auth is listed
    twice exactly when a Venafi configuration comes with an ACME or a
    Vault one; [deduplicateExtKeyUsages] brings the list down to each of
    its usages once.  The issuer is looked up among the cluster issuers
    when the kind of the reference is "ClusterIssuer" and among the
    issuers of the namespace for any other kind. *)
Theorem X11_default_key_usages formatRef h ns issuerRef issuerSpec :
  (if String.eqb (helper.RefKind issuerRef) "ClusterIssuer"
   then helper.ClusterIssuers_Get h (helper.RefName issuerRef)
   else helper.Issuers_Get h ns (helper.RefName issuerRef)) = inl issuerSpec ->
  exists keyUsages extKeyUsages,
    helper.defaultKeyUsagesToAdd formatRef h ns issuerRef
    = (keyUsages, extKeyUsages, None)
    /\ keyUsages = (if helper.Vault issuerSpec then 16 else 0)
    /\ (helper.ExtKeyUsageServerAuth ∈ extKeyUsages
        <-> helper.ACME issuerSpec || helper.Vault issuerSpec
            || helper.Venafi issuerSpec = true)
    /\ (helper.ExtKeyUsageClientAuth ∈ extKeyUsages
        <-> helper.ACME issuerSpec || helper.Vault issuerSpec = true)
    /\ (forall e, e ∈ extKeyUsages ->
          e = helper.ExtKeyUsageServerAuth \/ e = helper.ExtKeyUsageClientAuth)
    /\ (NoDup extKeyUsages
        <-> (helper.ACME issuerSpec || helper.Vault issuerSpec)
            && helper.Venafi issuerSpec = false)
    /\ NoDup (helper.deduplicateExtKeyUsages extKeyUsages)
    /\ (forall e, e ∈ helper.deduplicateExtKeyUsages extKeyUsages <-> e ∈ extKeyUsages).
Proof.
  intros Hfound. unfold helper.defaultKeyUsagesToAdd.
  assert (Hfound' :
    (if String.eqb (helper.RefKind issuerRef) "ClusterIssuer"
     then match helper.ClusterIssuers_Get h (helper.RefName issuerRef) with
          | inl spec => inl spec
          | inr err =>
              inr (errorString ("failed to find referenced ClusterIssuer "
                                +:+ formatRef issuerRef +:+ ": " +:+ Error err))
          end
     else match helper.Issuers_Get h ns (helper.RefName issuerRef) with
          | inl spec => inl spec
          | inr err =>
              inr (errorString ("failed to find referenced Issuer "
                                +:+ formatRef issuerRef +:+ ": " +:+ Error err))
          end) = inl issuerSpec).
  { by destruct (String.eqb (helper.RefKind issuerRef) "ClusterIssuer");
      rewrite Hfound. }
  rewrite Hfound'. clear Hfound Hfound'.
  do 2 eexists. split; [reflexivity|].
  split; [by destruct (helper.Vault issuerSpec)|].
  match goal with
  | |- context [helper.deduplicateExtKeyUsages ?l] =>
      destruct (deduplicate_elements l) as (Hnd & Hmem & _)
  end.
  split; [|split; [|split; [|split; [|split; [exact Hnd|exact Hmem]]]]];
    clear Hnd Hmem;
    destruct issuerSpec as [[|] [|] [|]];
    cbn [helper.ACME helper.Vault helper.Venafi orb andb app].
  all: try (split; intros H; first [done | compute_done | (revert H; compute_done)]).
  all: intros e He;
    repeat (apply elem_of_cons in He as [->|He]; [by auto|]);
    by apply elem_of_nil in He.
Qed.

(** X11 at work: a cluster issuer with a Vault and a Venafi
    configuration. *)
Lemma X11_default_key_usages_witness :
  exists extKeyUsages,
    helper.defaultKeyUsagesToAdd HelperEx.formatRef HelperEx.client "ns"
      HelperEx.clusterRef = (16, extKeyUsages, None)
    /\ ~ NoDup extKeyUsages
    /\ NoDup (helper.deduplicateExtKeyUsages extKeyUsages).
Proof.
  destruct (X11_default_key_usages HelperEx.formatRef HelperEx.client "ns"
              HelperEx.clusterRef
              {| helper.ACME := false; helper.Vault := true; helper.Venafi := true |}
              eq_refl)
    as (ku & eku & Heq & -> & _ & _ & _ & Hdup & Hnd & _).
  exists eku. split; [exact Heq|]. split; [|exact Hnd].
  intros Hno. apply Hdup in Hno. discriminate Hno.
Defined.

(** X12. When the referenced issuer cannot be fetched,
    [defaultKeyUsagesToAdd] returns no usages at all together with an
    error that wraps the text of the Get error; a reference whose kind is
    anything but "ClusterIssuer" is reported as a missing Issuer of the
    namespace, whatever the cluster issuers are. *)
Theorem X12_default_key_usages_lookup_error formatRef h ns issuerRef err :
  (if String.eqb (helper.RefKind issuerRef) "ClusterIssuer"
   then helper.ClusterIssuers_Get h (helper.RefName issuerRef)
   else helper.Issuers_Get h ns (helper.RefName issuerRef)) = inr err ->
  helper.defaultKeyUsagesToAdd formatRef h ns issuerRef
  = (0, [],
     Some (errorString
             ("failed to find referenced "
              +:+ (if String.eqb (helper.RefKind issuerRef) "ClusterIssuer"
                   then "ClusterIssuer " else "Issuer ")
              +:+ formatRef issuerRef +:+ ": " +:+ Error err))).
Proof.
  intros Hfound. unfold helper.defaultKeyUsagesToAdd.
  by destruct (String.eqb (helper.RefKind issuerRef) "ClusterIssuer");
    rewrite Hfound.
Qed.

(** X12 at work: the kind is misspelt, so the cluster issuer of that name
    is not found. *)
Lemma X12_default_key_usages_lookup_error_witness :
  helper.defaultKeyUsagesToAdd HelperEx.formatRef HelperEx.client "ns"
    HelperEx.misspeltRef
  = (0, [],
     Some (errorString
             "failed to find referenced Issuer &{vault-venafi clusterissuer cert-manager.io}: not found")).
Proof.
  exact (X12_default_key_usages_lookup_error HelperEx.formatRef HelperEx.client
           "ns" HelperEx.misspeltRef HelperEx.notFound eq_refl).
Defined.

(** The wait for a certificate to exist, one poll at a time. *)
Lemma WaitForCertificateToExist_not_found {A} name (got : helper.Got A) ticks err :
  got.2 = Some err -> IsNotFound err = true ->
  helper.WaitForCertificateToExist name (got :: ticks)
  = match ticks with
    | [] => (got.1, Some helper.DeadlineExceeded)
    | _ => helper.WaitForCertificateToExist name ticks
    end.
Proof.
  destruct got as [certificate e]. cbn [snd fst]. intros -> Hnf.
  unfold helper.WaitForCertificateToExist.
  cbn [helper.PollUntilContextTimeout]. rewrite Hnf.
  destruct ticks as [|[c' e'] ticks]; [done|].
  cbn [helper.PollUntilContextTimeout].
  destruct e' as [e'|]; [destruct (IsNotFound e')|]; reflexivity.
Qed.

(** X13. [WaitForCertificateToExist] keeps polling while the Get answers
    NotFound and stops at the first other answer: a Get without error
    ends the wait with that certificate and no error, a Get with any
    other error ends it with "error getting Certificate <name>: <err>",
    and later polls are not made. *)
Theorem X13_wait_to_exist_skips_not_found {A} name
    (missing : list (helper.Got A)) (got : helper.Got A) later :
  Forall (fun g => exists err, g.2 = Some err /\ IsNotFound err = true) missing ->
  (forall err, got.2 = Some err -> IsNotFound err = false) ->
  helper.WaitForCertificateToExist name (missing ++ got :: later)
  = (got.1,
     match got.2 with
     | None => None
     | Some err =>
         Some (errorString ("error getting Certificate " +:+ name +:+ ": "
                            +:+ Error err))
     end).
Proof.
  intros Hmissing Hgot.
  induction Hmissing as [|g missing (err & Hg & Hnf) _ IH].
  - destruct got as [certificate [err|]]; cbn [app fst snd] in *.
    + unfold helper.WaitForCertificateToExist. cbn.
      by rewrite (Hgot err eq_refl).
    + reflexivity.
  - cbn [app]. rewrite (WaitForCertificateToExist_not_found name g _ err Hg Hnf).
    rewrite <- IH. by destruct missing.
Qed.

(** X13 at work: two NotFound polls, then the certificate. *)
Lemma X13_wait_to_exist_skips_not_found_witness :
  helper.WaitForCertificateToExist "cert"
    [(None, Some HelperEx.notFound); (None, Some HelperEx.notFound);
     (Some "certificate", None); (None, Some HelperEx.timeout)]
  = (Some "certificate", None).
Proof.
  apply (X13_wait_to_exist_skips_not_found "cert"
           [(None, Some HelperEx.notFound); (None, Some HelperEx.notFound)]
           (Some "certificate", None) [(None, Some HelperEx.timeout)]).
  - repeat constructor; by eexists.
  - intros err Herr. discriminate Herr.
Defined.

(** The shared wait loop, one poll at a time. *)
Lemma waitForCondition_cons {A} kind name check
    (got : option A * option error) (ticks : list (option A * option error)) :
  helper.waitForCondition kind name check (got :: ticks)
  = match got.2 with
    | Some err =>
        (None, Some (errorString ("error getting " +:+ kind +:+ " " +:+ name
                                  +:+ ": " +:+ Error err)))
    | None =>
        if check got.1 then (got.1, None)
        else match ticks with
             | [] => (got.1, Some helper.DeadlineExceeded)
             | _ => helper.waitForCondition kind name check ticks
             end
    end.
Proof.
  destruct got as [object [err|]]; cbn [fst snd]; [reflexivity|].
  unfold helper.waitForCondition. cbn [helper.PollUntilContextTimeout].
  destruct (check object); [reflexivity|].
  destruct ticks as [|[o' [e'|]] ticks]; [done|reflexivity|].
  cbn [helper.PollUntilContextTimeout]. by destruct (check o').
Qed.

(** X14. The condition waits ([waitForCertificateCondition],
    [waitForIssuerCondition], [waitForClusterIssuerCondition]) give up at
    the first Get error of any kind, NotFound included: the object
    returned is nil, the error is "error getting <kind> <name>: <err>",
    and what later polls would have found plays no part. *)
Theorem X14_condition_wait_stops_at_any_error {A} kind name check
    (waiting : list (option A * option error)) object err later :
  Forall (fun g => g.2 = None /\ check g.1 = false) waiting ->
  helper.waitForCondition kind name check (waiting ++ (object, Some err) :: later)
  = (None, Some (errorString ("error getting " +:+ kind +:+ " " +:+ name
                              +:+ ": " +:+ Error err))).
Proof.
  induction 1 as [|g waiting [Hg Hc] _ IH].
  - change ([] ++ (object, Some err) :: later) with ((object, Some err) :: later).
    by rewrite waitForCondition_cons.
  - change ((g :: waiting) ++ (object, Some err) :: later)
      with (g :: (waiting ++ (object, Some err) :: later)).
    rewrite waitForCondition_cons, Hg, Hc. rewrite <- IH. by destruct waiting.
Qed.

(** X14 at work: the certificate is there but not ready, then it is
    deleted. *)
Lemma X14_condition_wait_stops_at_any_error_witness :
  @helper.waitForCertificateCondition string "cert" (fun _ => false)
    [(Some "certificate", None); (None, Some HelperEx.notFound);
     (Some "certificate", None)]
  = (None, Some (errorString "error getting Certificate cert: not found")).
Proof.
  apply (X14_condition_wait_stops_at_any_error "Certificate" "cert" (fun _ => false)
           [(Some "certificate", None)] None HelperEx.notFound
           [(Some "certificate", None)]).
  repeat constructor.
Defined.

Lemma waitForCondition_result {A} kind name check
    (ticks : list (option A * option error)) :
  ((helper.waitForCondition kind name check ticks).2 = None ->
     check (helper.waitForCondition kind name check ticks).1 = true
     /\ ((helper.waitForCondition kind name check ticks).1, None) ∈ ticks)
  /\ ((helper.waitForCondition kind name check ticks).2 = None
      \/ (helper.waitForCondition kind name check ticks).2
         = Some helper.DeadlineExceeded
      \/ (helper.waitForCondition kind name check ticks).1 = None).
Proof.
  induction ticks as [|[object [err|]] ticks IH].
  - split; [done|]. right. by left.
  - rewrite waitForCondition_cons. cbn. split; [done|]. right. by right.
  - rewrite waitForCondition_cons. cbn [fst snd].
    destruct (check object) eqn:Hc.
    + cbn. split; [|by left]. intros _. split; [done|]. apply list_elem_of_here.
    + destruct ticks as [|g ticks].
      * cbn. split; [done|]. right. by left.
      * destruct IH as [IH1 IH2]. split; [|exact IH2].
        intros Hnone. destruct (IH1 Hnone) as [? ?].
        split; [done|]. by apply list_elem_of_further.
Qed.

(** X15. What a condition wait returns: without an error, an object that
    one of the polls fetched without error and that passes the check;
    with an error, an object only when the wait ran into the deadline,
    never after a failed Get.  So the issuer waits log "Failed waiting
    for issuer" only at the deadline. *)
Theorem X15_condition_wait_result {A} kind name check
    (ticks : list (option A * option error)) :
  ((helper.waitForCondition kind name check ticks).2 = None ->
     check (helper.waitForCondition kind name check ticks).1 = true
     /\ ((helper.waitForCondition kind name check ticks).1, None) ∈ ticks)
  /\ ((helper.waitForCondition kind name check ticks).1 <> None ->
      (helper.waitForCondition kind name check ticks).2 <> None ->
      (helper.waitForCondition kind name check ticks).2
      = Some helper.DeadlineExceeded)
  /\ ((helper.waitForIssuerCondition name check ticks).2 = true ->
      (helper.waitForIssuerCondition name check ticks).1.2
      = Some helper.DeadlineExceeded).
Proof.
  destruct (waitForCondition_result kind name check ticks) as [H1 H2].
  split; [exact H1|]. split.
  - intros Hobj Herr. by destruct H2 as [?|[?|?]].
  - unfold helper.waitForIssuerCondition.
    destruct (waitForCondition_result "Issuer" name check ticks) as [_ H3].
    destruct (helper.waitForCondition "Issuer" name check ticks) as [issuer pollErr].
    cbn [fst snd] in *. intros Hlog.
    apply andb_prop in Hlog as [Herr Hiss].
    destruct H3 as [Hn|[Hd|Hi]]; [by rewrite Hn in Herr|done|by rewrite Hi in Hiss].
Qed.

(** X15 at work: the issuer never becomes ready, and the line is
    logged. *)
Lemma X15_condition_wait_result_witness :
  (@helper.waitForIssuerCondition string "issuer" (fun _ => false)
     [(Some "issuer", None); (Some "issuer", None)]).2 = true
  /\ (@helper.waitForIssuerCondition string "issuer" (fun _ => false)
        [(Some "issuer", None); (Some "issuer", None)]).1.2
     = Some helper.DeadlineExceeded.
Proof.
  split; [reflexivity|].
  destruct (X15_condition_wait_result "Issuer" "issuer" (fun _ : option string => false)
              [(Some "issuer", None); (Some "issuer", None)]) as (_ & _ & H).
  exact (H eq_refl).
Defined.

(** * The life of an issuer that fails for good *)

(** X16. The "fail-issuer-permanently" run of the tests, for any issuer
    and any permanent error: a new issuer (no Ready condition) is first
    marked Initializing, the next pass calls [Check], which fails with a
    permanent error, and marks it Failed; from then on, whatever passes
    follow, [Check] is never called again and the issuer stays Failed
    with the message of that error.  In all, [Check] runs once. *)
Theorem X16_permanent_failure_checks_once r1 r2 req w issuer e (ps : list Pass) :
  apiserver w !! req = Some issuer ->
  readyOf issuer = None ->
  getFault (client r1) = None -> patchFault (client r1) = None ->
  (forall store, others (client r1) store = store) ->
  notIgnored r1 issuer ->
  getFault (client r2) = None -> patchFault (client r2) = None ->
  (forall store, others (client r2) store = store) ->
  notIgnored r2 (applyStatus {| Conditions := [initializing r1 issuer] |} issuer) ->
  Check r2 (applyStatus {| Conditions := [initializing r1 issuer] |} issuer) = Some e ->
  errors_As_PermanentError e = true ->
  checkCalls
    (calls (passes ps req
              (Reconcile r2 req (Reconcile r1 req (fresh w)).2).2).2)
  = [applyStatus {| Conditions := [initializing r1 issuer] |} issuer]
  /\ exists stored cond,
       apiserver (passes ps req
                    (Reconcile r2 req (Reconcile r1 req (fresh w)).2).2).2 !! req
       = Some stored
       /\ readyOf stored = Some cond
       /\ Status cond = ConditionFalse
       /\ Reason cond = "Failed"
       /\ Message cond = "Issuer has failed permanently: " +:+ Error e
       /\ ObservedGeneration cond = Generation issuer.
Proof.
  intros Hf Hr Hg1 Hp1 Ho1 Hi1 Hg2 Hp2 Ho2 Hi2 Hcheck Hperm.
  set (issuer1 := applyStatus {| Conditions := [initializing r1 issuer] |} issuer) in *.
  (* the first pass *)
  pose proof (Reconcile_some_patch _ _ _ _ _ _ _
                (reconcileStatusPatch_initializing r1 req (fresh w) issuer
                   Hg1 Hf Hr Hi1)) as Hrec1.
  set (w1 := (Reconcile r1 req (fresh w)).2).
  assert (Hstore1 : apiserver w1 !! req = Some issuer1).
  { unfold w1. rewrite Hrec1. cbn [snd].
    rewrite (apiserver_patched _ _ _ _ _ issuer);
      [|done|by cbn [apiserver fresh]; rewrite Ho1].
    apply lookup_insert_eq. }
  assert (Hcalls1 : checkCalls (calls w1) = []).
  { unfold w1. by apply (no_condition_no_check r1 req w issuer). }
  (* the second pass *)
  assert (Hready1 : readyOf issuer1 = Some (initializing r1 issuer))
    by (by apply readyOf_applyStatus).
  assert (Hreach : reachesCheck r2 req w1 issuer1 (initializing r1 issuer)).
  { split; try done. unfold isFailed. by rewrite Hready1. }
  assert (Hchosen : chosenError r2 req w1 issuer1 (initializing r1 issuer) = Some e).
  { unfold chosenError, overrides. cbn. exact Hcheck. }
  pose proof (Reconcile_check _ _ _ _ _ Hreach) as Hrec2.
  rewrite Hchosen in Hrec2. cbn [verdict] in Hrec2. rewrite Hperm in Hrec2.
  unfold verdictPatch in Hrec2. cbn [vStatus vReason vMessage vError] in Hrec2.
  destruct (readyPatch_fields r2 issuer1 ConditionFalse IssuerConditionReasonFailed
              ("Issuer has failed permanently: " +:+ Error e))
    as (cond & Hpatch & Hty & Hs & Hre & Hm & Hgen).
  rewrite Hpatch in Hrec2.
  set (w2 := (Reconcile r2 req w1).2).
  set (issuer2 := applyStatus {| Conditions := [cond] |} issuer1).
  assert (Hstore2 : apiserver w2 !! req = Some issuer2).
  { unfold w2. rewrite Hrec2. cbn [snd].
    rewrite (apiserver_patched _ _ _ _ _ issuer1);
      [|done|by cbn [apiserver checkedWorld]; rewrite Ho2].
    apply lookup_insert_eq. }
  assert (Hcalls2 : checkCalls (calls w2) = [issuer1]).
  { unfold w2. rewrite Hrec2. cbn [snd patched checkedWorld calls].
    rewrite !checkCalls_app, Hcalls1. unfold overrides, ignoreCall. cbn.
    by destruct (IgnoreIssuer r2). }
  assert (Hready2 : readyOf issuer2 = Some cond) by (by apply readyOf_applyStatus).
  assert (Hfailed : terminallyFailed issuer2).
  { exists cond. repeat split; try done. rewrite Hgen. done. }
  (* everything after *)
  destruct (passes_terminallyFailed ps req w2 issuer2 Hstore2 Hfailed)
    as (Hstore & Hchecks & _).
  rewrite Hchecks, Hstore. split; [exact Hcalls2|].
  exists issuer2, cond. by repeat split.
Qed.

(** X16 at work: the issuer of the tests, two more passes with a Check
    that would succeed. *)
Lemma X16_permanent_failure_checks_once_witness :
  checkCalls
    (calls (passes [mkPass (Ex.reconciler (fun _ => None)) [Ex.boom];
                    mkPass (Ex.reconciler (fun _ => None)) []]
              Ex.key
              (Reconcile (Ex.reconciler (fun _ => Some (PermanentError Ex.boom))) Ex.key
                 (Reconcile (Ex.reconciler (fun _ => Some (PermanentError Ex.boom)))
                    Ex.key (fresh (Ex.world (Ex.issuer 1 []) ∅))).2).2).2)
  = [applyStatus
       {| Conditions :=
            [initializing (Ex.reconciler (fun _ => Some (PermanentError Ex.boom)))
               (Ex.issuer 1 [])] |}
       (Ex.issuer 1 [])].
Proof.
  refine (proj1 (X16_permanent_failure_checks_once
            (Ex.reconciler (fun _ => Some (PermanentError Ex.boom)))
            (Ex.reconciler (fun _ => Some (PermanentError Ex.boom)))
            Ex.key (Ex.world (Ex.issuer 1 []) ∅) (Ex.issuer 1 [])
            (PermanentError Ex.boom) _
            (lookup_singleton_eq _ _) eq_refl eq_refl eq_refl (fun _ => eq_refl) I
            eq_refl eq_refl (fun _ => eq_refl) I eq_refl eq_refl)).
Defined.
